(** * app/models.py: the SQLModel data model of the assistant application

    The source file declares five string enumerations, nine table models
    and eleven non-persistent shapes.  Every declaration is a class whose
    attributes are [Field(...)] descriptors.  This development embeds the
    declarations as data (one [field] record per attribute, with exactly
    the keyword arguments the source passes) and gives them the meaning
    they have for the library: validation checks the annotation, [ge] and
    [max_length], fills in [default] and [default_factory], and takes no
    notice of [regex]; the constructor of a class that is not a table
    validates, and the constructor of a table class stores its payload
    unchecked.  The persistence layer and the lifecycle of creation and
    update, which the source leaves to its callers, are modelled
    separately and marked.

    Strings are [string]s (one [ascii] per character), Python [int] is
    [Z], [Decimal] is a finite coefficient and exponent or one of the
    three values that are not finite, a keyword payload and a validated
    object are [gmap string value]. *)

From Stdlib Require Import ZArith Ascii String List Bool Lia.
From stdpp Require Import gmap strings list fin_maps.

#[local] Set Warnings "-register-all".

Local Open Scope Z_scope.

(** ** Regular expressions, as far as [Field(regex=...)] uses them *)

Module Regex.

Inductive set_item : Type :=
| SChar (c : ascii)
| SRange (lo hi : ascii).

Inductive re : Type :=
| Eps
| Lit (c : ascii)
| Class (items : list set_item)
| Cat (r1 r2 : re)
| Alt (r1 r2 : re)
| Star (r : re)
| Void.

(** [r+] is [r r*]. *)
Definition Plus (r : re) : re := Cat r (Star r).

Definition code (c : ascii) : N := N_of_ascii c.

Definition in_item (c : ascii) (i : set_item) : bool :=
  match i with
  | SChar d => Ascii.eqb c d
  | SRange lo hi => (code lo <=? code c)%N && (code c <=? code hi)%N
  end.

Definition in_class (items : list set_item) (c : ascii) : bool :=
  existsb (in_item c) items.

(** The words a regular expression denotes. *)
Inductive Matches : re -> list ascii -> Prop :=
| MEps : Matches Eps []
| MLit c : Matches (Lit c) [c]
| MClass items c : in_class items c = true -> Matches (Class items) [c]
| MCat r1 r2 s1 s2 :
    Matches r1 s1 -> Matches r2 s2 -> Matches (Cat r1 r2) (s1 ++ s2)
| MAltL r1 r2 s : Matches r1 s -> Matches (Alt r1 r2) s
| MAltR r1 r2 s : Matches r2 s -> Matches (Alt r1 r2) s
| MStarNil r : Matches (Star r) []
| MStarCons r s1 s2 :
    Matches r s1 -> Matches (Star r) s2 -> Matches (Star r) (s1 ++ s2).

(** The matcher: Brzozowski derivatives. *)
Fixpoint nullable (r : re) : bool :=
  match r with
  | Eps => true
  | Lit _ => false
  | Class _ => false
  | Cat r1 r2 => nullable r1 && nullable r2
  | Alt r1 r2 => nullable r1 || nullable r2
  | Star _ => true
  | Void => false
  end.

Fixpoint deriv (c : ascii) (r : re) : re :=
  match r with
  | Eps => Void
  | Lit d => if Ascii.eqb c d then Eps else Void
  | Class items => if in_class items c then Eps else Void
  | Cat r1 r2 =>
      if nullable r1
      then Alt (Cat (deriv c r1) r2) (deriv c r2)
      else Cat (deriv c r1) r2
  | Alt r1 r2 => Alt (deriv c r1) (deriv c r2)
  | Star r1 => Cat (deriv c r1) (Star r1)
  | Void => Void
  end.

Fixpoint matches (r : re) (s : list ascii) : bool :=
  match s with
  | [] => nullable r
  | c :: s' => matches (deriv c r) s'
  end.

(** A compiled pattern: the body between the anchors, and whether the
    pattern text starts with [^] and ends with [$]. *)
Record pattern : Type := Pattern {
  caret : bool;
  body : re;
  dollar : bool
}.

Definition newline : ascii := ascii_of_nat 10.

(** Where Python's [$] holds (no MULTILINE flag): at the end of the
    string and just before a newline that ends the string. *)
Definition at_dollar (rest : list ascii) : bool :=
  match rest with
  | [] => true
  | [c] => Ascii.eqb c newline
  | _ => false
  end.

Definition end_ok (p : pattern) (rest : list ascii) : bool :=
  if dollar p then at_dollar rest else true.

(** All the ways to cut [s] in a prefix and the rest. *)
Fixpoint splits (s : list ascii) : list (list ascii * list ascii) :=
  match s with
  | [] => [([], [])]
  | c :: s' => ([], s) :: map (fun ps => (c :: fst ps, snd ps)) (splits s')
  end.

(** [re.match(p, s)]: some prefix of [s] matches the body (a match
    always starts at position 0, with or without [^]) and [$], when
    present, holds where the prefix ends. *)
Definition re_match (p : pattern) (s : list ascii) : bool :=
  existsb (fun ps => matches (body p) (fst ps) && end_ok p (snd ps)) (splits s).

End Regex.

Local Open Scope string_scope.
Local Open Scope list_scope.

(** ** Values and declared types *)

(** A Python value as it appears in a keyword payload or in an attribute
    of a validated object.  A member of a [(str, Enum)] class is its
    string value; a finite [Decimal] is [coefficient * 10 ^ exponent],
    the others are [Decimal("NaN")], [Decimal("Infinity")] and
    [Decimal("-Infinity")]; a [datetime] is a count of microseconds. *)
Inductive value : Type :=
| VNone
| VBool (b : bool)
| VInt (n : Z)
| VStr (s : string)
| VDecimal (coefficient exponent : Z)
| VDatetime (t : Z)
| VList (items : list value)
| VDict (entries : list (string * value))
| VDecimalNaN
| VDecimalInfinity (negative : bool).

(** [class E(str, Enum)]: the member names with their string values. *)
Record enum : Type := Enum {
  ename : string;
  members : list (string * string)
}.

Definition enum_values (e : enum) : list string := map snd (members e).

(** The annotation of an attribute. *)
Inductive ftype : Type :=
| TInt
| TStr
| TBool
| TDecimal
| TDatetime
| TEnum (e : enum)
| TList (t : ftype)
| TDictAny
| TOptional (t : ftype).

(** The keyword arguments the source passes to [Field]. *)
Inductive kwarg : Type :=
| Default (v : value)
| DefaultFactoryUtcnow
| PrimaryKey
| Unique
| ForeignKey (target : string)
| MaxLength (n : Z)
| Ge (bound : Z)
| RegexKw (p : Regex.pattern)
| SaColumnJSON.

(** [name: annotation = Field(kwargs)]. *)
Record field : Type := Fld {
  fname : string;
  ftyp : ftype;
  kwargs : list kwarg
}.

(** [name: annotation = Relationship(back_populates=...)]. *)
Record relationship : Type := Rel {
  rname : string;
  target_model : string;
  to_many : bool;
  back_populates : string
}.

(** [class mname(SQLModel, table=...)]. *)
Record model : Type := Model {
  mname : string;
  table : bool;
  tablename : option string;
  mfields : list field;
  relationships : list relationship
}.

Definition field_names (m : model) : list string := map fname (mfields m).

(** *** Reading the keyword arguments of a field *)

Inductive default_spec : Type :=
| Required
| DefaultValue (v : value)
| DefaultUtcnow.

Fixpoint kw_default (ks : list kwarg) : default_spec :=
  match ks with
  | [] => Required
  | Default v :: _ => DefaultValue v
  | DefaultFactoryUtcnow :: _ => DefaultUtcnow
  | _ :: ks' => kw_default ks'
  end.

Fixpoint kw_ge (ks : list kwarg) : option Z :=
  match ks with
  | [] => None
  | Ge b :: _ => Some b
  | _ :: ks' => kw_ge ks'
  end.

Fixpoint kw_max_length (ks : list kwarg) : option Z :=
  match ks with
  | [] => None
  | MaxLength n :: _ => Some n
  | _ :: ks' => kw_max_length ks'
  end.

Fixpoint kw_regex (ks : list kwarg) : option Regex.pattern :=
  match ks with
  | [] => None
  | RegexKw p :: _ => Some p
  | _ :: ks' => kw_regex ks'
  end.

Definition kw_is_unique (k : kwarg) : bool :=
  match k with Unique => true | _ => false end.

Definition kw_is_primary_key (k : kwarg) : bool :=
  match k with PrimaryKey => true | _ => false end.

Definition kw_is_foreign_key (k : kwarg) : bool :=
  match k with ForeignKey _ => true | _ => false end.

Definition is_unique (f : field) : bool := existsb kw_is_unique (kwargs f).
Definition is_primary_key (f : field) : bool := existsb kw_is_primary_key (kwargs f).
Definition is_foreign_key (f : field) : bool := existsb kw_is_foreign_key (kwargs f).

Definition field_default (f : field) : default_spec := kw_default (kwargs f).

Definition is_optional (t : ftype) : bool :=
  match t with TOptional _ => true | _ => false end.

Definition strip_optional (t : ftype) : ftype :=
  match t with TOptional t' => t' | _ => t end.

(** ** Validation of one value against one field *)

Inductive error_kind : Type :=
| Missing
| WrongType
| NotInEnum (e : enum)
| BelowMinimum (bound : Z)
| TooLong (limit : Z)
| PatternMismatch
| NotFinite.

Record error : Type := Err {
  loc : string;
  kind : error_kind
}.

(** The first reason why [v] is not a value of the annotation [t], if
    there is one.  Values are checked at their own Python type (an [int]
    for [int], a [str] for [str]; the conversions the validator would
    try on a value of another type are not modelled); an enumeration
    takes a string that is the value of one of its members; a [Decimal]
    has to be finite. *)
Fixpoint type_error (t : ftype) (v : value) : option error_kind :=
  match t, v with
  | TInt, VInt _ => None
  | TStr, VStr _ => None
  | TBool, VBool _ => None
  | TDecimal, VDecimal _ _ => None
  | TDecimal, VDecimalNaN => Some NotFinite
  | TDecimal, VDecimalInfinity _ => Some NotFinite
  | TDatetime, VDatetime _ => None
  | TEnum e, VStr s =>
      if existsb (String.eqb s) (enum_values e) then None else Some (NotInEnum e)
  | TEnum e, _ => Some (NotInEnum e)
  | TList t', VList items =>
      if forallb (fun x => match type_error t' x with None => true | Some _ => false end) items
      then None else Some WrongType
  | TDictAny, VDict _ => None
  | TOptional _, VNone => None
  | TOptional t', _ => type_error t' v
  | _, _ => Some WrongType
  end.

Definition check_ge (ks : list kwarg) (v : value) : option error_kind :=
  match kw_ge ks, v with
  | Some b, VInt n => if (b <=? n)%Z then None else Some (BelowMinimum b)
  | _, _ => None
  end.

Definition check_max_length (ks : list kwarg) (v : value) : option error_kind :=
  match kw_max_length ks, v with
  | Some n, VStr s => if (Z.of_nat (String.length s) <=? n)%Z then None else Some (TooLong n)
  | _, _ => None
  end.

(** [regex=] is a keyword of [sqlmodel.Field], but the validator knows
    the constraint under the name [pattern] and is not handed this one:
    the declared pattern is recorded and constrains nothing. *)
Definition check_regex (ks : list kwarg) (v : value) : option error_kind := None.

Definition first_error (a b : option error_kind) : option error_kind :=
  match a with Some k => Some k | None => b end.

(** The type first, then the bound and the length; the pattern has no
    part in it. *)
Definition check_value (f : field) (v : value) : option error_kind :=
  first_error (type_error (ftyp f) v)
    (first_error (check_ge (kwargs f) v)
       (first_error (check_max_length (kwargs f) v)
          (check_regex (kwargs f) v))).

(** ** Validation of a payload against a model *)

(** [datetime.utcnow]: the n-th call of a run returns [now n]. *)
Definition clock : Type := nat -> Z.

(** One attribute: the supplied value is checked; an omitted attribute
    takes its default (which is not checked), calls its factory, or is
    reported missing. *)
Definition validate_field (now : clock) (tick : nat) (f : field) (arg : option value)
  : nat * (error_kind + value) :=
  match arg with
  | Some v =>
      (tick, match check_value f v with Some k => inl k | None => inr v end)
  | None =>
      match field_default f with
      | DefaultValue d => (tick, inr d)
      | DefaultUtcnow => (S tick, inr (VDatetime (now tick)))
      | Required => (tick, inl Missing)
      end
  end.

(** The attributes in declaration order; keys of the payload that name
    no field are ignored.  Every failing field reports one error. *)
Fixpoint validate_fields (now : clock) (tick : nat) (fs : list field)
    (p : gmap string value) : nat * list error * gmap string value :=
  match fs with
  | [] => (tick, [], ∅)
  | f :: fs' =>
      let '(tick1, r) := validate_field now tick f (p !! fname f) in
      let '(tick2, errs, obj) := validate_fields now tick1 fs' p in
      match r with
      | inl k => (tick2, Err (fname f) k :: errs, obj)
      | inr v => (tick2, errs, <[fname f := v]> obj)
      end
  end.

(** Validation of the keyword payload [p] by the class [m]: the object,
    or the errors. *)
Definition validate_model (m : model) (now : clock) (tick : nat) (p : gmap string value)
  : nat * (list error + gmap string value) :=
  let '(tick', errs, obj) := validate_fields now tick (mfields m) p in
  (tick', match errs with [] => inr obj | _ => inl errs end).

(** Construction with validation, from a fresh reading of the clock:
    what [M.model_validate(p)] does for every class, and what the
    constructor [M(p)] does for a class that is not a table.  The
    constructor of a table class is [init] below. *)
Definition construct (m : model) (now : clock) (p : gmap string value)
  : list error + gmap string value :=
  snd (validate_model m now 0 p).

(** [M.model_validate(p)], under its own name. *)
Definition model_validate (m : model) (now : clock) (p : gmap string value)
  : list error + gmap string value :=
  construct m now p.

(** What the constructor of a [table=True] class stores: for each
    declared attribute the value of the payload as it is given, else the
    default or a reading of the clock; a required attribute the payload
    omits stays unset, and keys that name no attribute are ignored.
    Nothing is checked. *)
Fixpoint table_fields (now : clock) (tick : nat) (fs : list field)
    (p : gmap string value) : nat * gmap string value :=
  match fs with
  | [] => (tick, ∅)
  | f :: fs' =>
      match p !! fname f with
      | Some v =>
          let '(tick', obj) := table_fields now tick fs' p in
          (tick', <[fname f := v]> obj)
      | None =>
          match field_default f with
          | DefaultValue d =>
              let '(tick', obj) := table_fields now tick fs' p in
              (tick', <[fname f := d]> obj)
          | DefaultUtcnow =>
              let '(tick', obj) := table_fields now (S tick) fs' p in
              (tick', <[fname f := VDatetime (now tick)]> obj)
          | Required => table_fields now tick fs' p
          end
      end
  end.

(** The constructor [M(p)]: a table class stores the payload unchecked
    and never refuses; any other class validates. *)
Definition init (m : model) (now : clock) (p : gmap string value)
  : list error + gmap string value :=
  if table m then inr (table_fields now 0 (mfields m) p).2
  else construct m now p.

(** ** The declarations of app/models.py *)

(** *** Enumerations *)

Definition FileStatus : enum :=
  Enum "FileStatus"
    [("UPLOADING", "uploading"); ("UPLOADED", "uploaded");
     ("PROCESSING", "processing"); ("READY", "ready"); ("ERROR", "error")].

Definition ChatMessageRole : enum :=
  Enum "ChatMessageRole"
    [("USER", "user"); ("ASSISTANT", "assistant"); ("SYSTEM", "system")].

Definition SearchStatus : enum :=
  Enum "SearchStatus"
    [("PENDING", "pending"); ("IN_PROGRESS", "in_progress");
     ("COMPLETED", "completed"); ("FAILED", "failed")].

Definition VideoStatus : enum :=
  Enum "VideoStatus"
    [("UPLOADED", "uploaded"); ("PROCESSING", "processing");
     ("READY", "ready"); ("ERROR", "error")].

Definition VideoEditType : enum :=
  Enum "VideoEditType"
    [("TRIM", "trim"); ("MERGE", "merge"); ("FILTER", "filter");
     ("ENHANCE", "enhance"); ("CUSTOM", "custom")].

(** *** The pattern of [User.email] *)

Definition lower : Regex.set_item := Regex.SRange "a"%char "z"%char.
Definition upper : Regex.set_item := Regex.SRange "A"%char "Z"%char.
Definition digit : Regex.set_item := Regex.SRange "0"%char "9"%char.

(** [[a-zA-Z0-9_.+-]] *)
Definition email_local_class : list Regex.set_item :=
  [lower; upper; digit; Regex.SChar "_"%char; Regex.SChar "."%char;
   Regex.SChar "+"%char; Regex.SChar "-"%char].

(** [[a-zA-Z0-9-]] *)
Definition email_label_class : list Regex.set_item :=
  [lower; upper; digit; Regex.SChar "-"%char].

(** [[a-zA-Z0-9-.]]: after the range [0-9] the hyphen is a literal. *)
Definition email_tail_class : list Regex.set_item :=
  [lower; upper; digit; Regex.SChar "-"%char; Regex.SChar "."%char].

(** [^[a-zA-Z0-9_.+-]+@[a-zA-Z0-9-]+\.[a-zA-Z0-9-.]+$] *)
Definition email_regex : Regex.pattern :=
  Regex.Pattern true
    (Regex.Cat (Regex.Plus (Regex.Class email_local_class))
       (Regex.Cat (Regex.Lit "@"%char)
          (Regex.Cat (Regex.Plus (Regex.Class email_label_class))
             (Regex.Cat (Regex.Lit "."%char)
                (Regex.Plus (Regex.Class email_tail_class))))))
    true.

(** *** Persistent models *)

Definition id_field : field := Fld "id" (TOptional TInt) [Default VNone; PrimaryKey].
Definition created_at_field : field := Fld "created_at" TDatetime [DefaultFactoryUtcnow].
Definition updated_at_field : field := Fld "updated_at" TDatetime [DefaultFactoryUtcnow].

Definition User : model :=
  Model "User" true (Some "users")
    [ id_field;
      Fld "username" TStr [MaxLength 50; Unique];
      Fld "email" TStr [MaxLength 255; Unique; RegexKw email_regex];
      Fld "full_name" TStr [MaxLength 200];
      Fld "is_active" TBool [Default (VBool true)];
      created_at_field;
      updated_at_field;
      Fld "storage_quota" TInt [Default (VInt 5368709120)];
      Fld "storage_used" TInt [Default (VInt 0)] ]
    [ Rel "uploaded_files" "UploadedFile" true "user";
      Rel "chat_sessions" "ChatSession" true "user";
      Rel "search_queries" "SearchQuery" true "user";
      Rel "video_projects" "VideoProject" true "user" ].

Definition UploadedFile : model :=
  Model "UploadedFile" true (Some "uploaded_files")
    [ id_field;
      Fld "filename" TStr [MaxLength 255];
      Fld "original_filename" TStr [MaxLength 255];
      Fld "file_path" TStr [MaxLength 500];
      Fld "file_size" TInt [Ge 0];
      Fld "mime_type" TStr [MaxLength 100];
      Fld "file_hash" TStr [MaxLength 64];
      Fld "status" (TEnum FileStatus) [Default (VStr "uploading")];
      Fld "user_id" TInt [ForeignKey "users.id"];
      created_at_field;
      updated_at_field;
      Fld "file_metadata" TDictAny [Default (VDict []); SaColumnJSON];
      Fld "processed_data" TDictAny [Default (VDict []); SaColumnJSON] ]
    [ Rel "user" "User" false "uploaded_files";
      Rel "chat_file_attachments" "ChatFileAttachment" true "file" ].

Definition ChatSession : model :=
  Model "ChatSession" true (Some "chat_sessions")
    [ id_field;
      Fld "title" TStr [MaxLength 200; Default (VStr "New Chat")];
      Fld "user_id" TInt [ForeignKey "users.id"];
      created_at_field;
      updated_at_field;
      Fld "is_active" TBool [Default (VBool true)];
      Fld "ai_model" TStr [MaxLength 100; Default (VStr "gpt-3.5-turbo")];
      Fld "system_prompt" TStr [Default (VStr ""); MaxLength 2000];
      Fld "temperature" TDecimal [Default (VDecimal 7 (-1))];
      Fld "max_tokens" TInt [Default (VInt 2048)];
      Fld "settings" TDictAny [Default (VDict []); SaColumnJSON] ]
    [ Rel "user" "User" false "chat_sessions";
      Rel "messages" "ChatMessage" true "session" ].

Definition ChatMessage : model :=
  Model "ChatMessage" true (Some "chat_messages")
    [ id_field;
      Fld "session_id" TInt [ForeignKey "chat_sessions.id"];
      Fld "role" (TEnum ChatMessageRole) [];
      Fld "content" TStr [MaxLength 10000];
      created_at_field;
      Fld "input_tokens" (TOptional TInt) [Default VNone; Ge 0];
      Fld "output_tokens" (TOptional TInt) [Default VNone; Ge 0];
      Fld "message_metadata" TDictAny [Default (VDict []); SaColumnJSON] ]
    [ Rel "session" "ChatSession" false "messages";
      Rel "file_attachments" "ChatFileAttachment" true "message" ].

Definition ChatFileAttachment : model :=
  Model "ChatFileAttachment" true (Some "chat_file_attachments")
    [ id_field;
      Fld "message_id" TInt [ForeignKey "chat_messages.id"];
      Fld "file_id" TInt [ForeignKey "uploaded_files.id"];
      created_at_field ]
    [ Rel "message" "ChatMessage" false "file_attachments";
      Rel "file" "UploadedFile" false "chat_file_attachments" ].

Definition SearchQuery : model :=
  Model "SearchQuery" true (Some "search_queries")
    [ id_field;
      Fld "user_id" TInt [ForeignKey "users.id"];
      Fld "query" TStr [MaxLength 1000];
      Fld "status" (TEnum SearchStatus) [Default (VStr "pending")];
      created_at_field;
      updated_at_field;
      Fld "completed_at" (TOptional TDatetime) [Default VNone];
      Fld "search_engines" (TList TStr) [Default (VList [VStr "google"]); SaColumnJSON];
      Fld "max_results" TInt [Default (VInt 10)];
      Fld "language" TStr [Default (VStr "en"); MaxLength 10];
      Fld "region" TStr [Default (VStr "us"); MaxLength 10];
      Fld "results" TDictAny [Default (VDict []); SaColumnJSON];
      Fld "results_count" TInt [Default (VInt 0); Ge 0];
      Fld "error_message" (TOptional TStr) [Default VNone; MaxLength 1000] ]
    [ Rel "user" "User" false "search_queries" ].

Definition VideoProject : model :=
  Model "VideoProject" true (Some "video_projects")
    [ id_field;
      Fld "user_id" TInt [ForeignKey "users.id"];
      Fld "title" TStr [MaxLength 200];
      Fld "description" TStr [Default (VStr ""); MaxLength 1000];
      created_at_field;
      updated_at_field;
      Fld "settings" TDictAny [Default (VDict []); SaColumnJSON] ]
    [ Rel "user" "User" false "video_projects";
      Rel "video_files" "VideoFile" true "project";
      Rel "edit_tasks" "VideoEditTask" true "project" ].

Definition VideoFile : model :=
  Model "VideoFile" true (Some "video_files")
    [ id_field;
      Fld "project_id" TInt [ForeignKey "video_projects.id"];
      Fld "filename" TStr [MaxLength 255];
      Fld "original_filename" TStr [MaxLength 255];
      Fld "file_path" TStr [MaxLength 500];
      Fld "file_size" TInt [Ge 0];
      Fld "duration" (TOptional TDecimal) [Default VNone];
      Fld "resolution" (TOptional TStr) [Default VNone; MaxLength 20];
      Fld "fps" (TOptional TDecimal) [Default VNone];
      Fld "codec" (TOptional TStr) [Default VNone; MaxLength 50];
      Fld "status" (TEnum VideoStatus) [Default (VStr "uploaded")];
      created_at_field;
      updated_at_field;
      Fld "video_metadata" TDictAny [Default (VDict []); SaColumnJSON] ]
    [ Rel "project" "VideoProject" false "video_files" ].

Definition VideoEditTask : model :=
  Model "VideoEditTask" true (Some "video_edit_tasks")
    [ id_field;
      Fld "project_id" TInt [ForeignKey "video_projects.id"];
      Fld "edit_type" (TEnum VideoEditType) [];
      Fld "status" (TEnum VideoStatus) [Default (VStr "uploaded")];
      Fld "user_prompt" TStr [MaxLength 2000];
      created_at_field;
      updated_at_field;
      Fld "completed_at" (TOptional TDatetime) [Default VNone];
      Fld "edit_parameters" TDictAny [Default (VDict []); SaColumnJSON];
      Fld "output_file_path" (TOptional TStr) [Default VNone; MaxLength 500];
      Fld "processing_log" TStr [Default (VStr ""); MaxLength 5000];
      Fld "error_message" (TOptional TStr) [Default VNone; MaxLength 1000];
      Fld "progress_percentage" TDecimal [Default (VDecimal 0 0)] ]
    [ Rel "project" "VideoProject" false "edit_tasks" ].

(** *** Non-persistent shapes *)

Definition UserCreate : model :=
  Model "UserCreate" false None
    [ Fld "username" TStr [MaxLength 50];
      Fld "email" TStr [MaxLength 255];
      Fld "full_name" TStr [MaxLength 200];
      Fld "storage_quota" (TOptional TInt) [Default (VInt 5368709120)] ]
    [].

Definition UserUpdate : model :=
  Model "UserUpdate" false None
    [ Fld "username" (TOptional TStr) [Default VNone; MaxLength 50];
      Fld "email" (TOptional TStr) [Default VNone; MaxLength 255];
      Fld "full_name" (TOptional TStr) [Default VNone; MaxLength 200];
      Fld "is_active" (TOptional TBool) [Default VNone];
      Fld "storage_quota" (TOptional TInt) [Default VNone] ]
    [].

Definition FileUploadRequest : model :=
  Model "FileUploadRequest" false None
    [ Fld "filename" TStr [MaxLength 255];
      Fld "file_size" TInt [Ge 0];
      Fld "mime_type" TStr [MaxLength 100] ]
    [].

Definition ChatSessionCreate : model :=
  Model "ChatSessionCreate" false None
    [ Fld "title" (TOptional TStr) [Default (VStr "New Chat"); MaxLength 200];
      Fld "ai_model" (TOptional TStr) [Default (VStr "gpt-3.5-turbo"); MaxLength 100];
      Fld "system_prompt" (TOptional TStr) [Default (VStr ""); MaxLength 2000];
      Fld "temperature" (TOptional TDecimal) [Default (VDecimal 7 (-1))];
      Fld "max_tokens" (TOptional TInt) [Default (VInt 2048)] ]
    [].

Definition ChatSessionUpdate : model :=
  Model "ChatSessionUpdate" false None
    [ Fld "title" (TOptional TStr) [Default VNone; MaxLength 200];
      Fld "ai_model" (TOptional TStr) [Default VNone; MaxLength 100];
      Fld "system_prompt" (TOptional TStr) [Default VNone; MaxLength 2000];
      Fld "temperature" (TOptional TDecimal) [Default VNone];
      Fld "max_tokens" (TOptional TInt) [Default VNone];
      Fld "is_active" (TOptional TBool) [Default VNone] ]
    [].

Definition ChatMessageCreate : model :=
  Model "ChatMessageCreate" false None
    [ Fld "role" (TEnum ChatMessageRole) [];
      Fld "content" TStr [MaxLength 10000];
      Fld "file_ids" (TOptional (TList TInt)) [Default (VList [])] ]
    [].

Definition SearchQueryCreate : model :=
  Model "SearchQueryCreate" false None
    [ Fld "query" TStr [MaxLength 1000];
      Fld "search_engines" (TOptional (TList TStr)) [Default (VList [VStr "google"])];
      Fld "max_results" (TOptional TInt) [Default (VInt 10)];
      Fld "language" (TOptional TStr) [Default (VStr "en"); MaxLength 10];
      Fld "region" (TOptional TStr) [Default (VStr "us"); MaxLength 10] ]
    [].

Definition VideoProjectCreate : model :=
  Model "VideoProjectCreate" false None
    [ Fld "title" TStr [MaxLength 200];
      Fld "description" (TOptional TStr) [Default (VStr ""); MaxLength 1000] ]
    [].

Definition VideoProjectUpdate : model :=
  Model "VideoProjectUpdate" false None
    [ Fld "title" (TOptional TStr) [Default VNone; MaxLength 200];
      Fld "description" (TOptional TStr) [Default VNone; MaxLength 1000] ]
    [].

Definition VideoEditTaskCreate : model :=
  Model "VideoEditTaskCreate" false None
    [ Fld "edit_type" (TEnum VideoEditType) [];
      Fld "user_prompt" TStr [MaxLength 2000] ]
    [].

Definition VideoEditTaskUpdate : model :=
  Model "VideoEditTaskUpdate" false None
    [ Fld "status" (TOptional (TEnum VideoStatus)) [Default VNone];
      Fld "edit_parameters" (TOptional TDictAny) [Default VNone];
      Fld "output_file_path" (TOptional TStr) [Default VNone; MaxLength 500];
      Fld "processing_log" (TOptional TStr) [Default VNone; MaxLength 5000];
      Fld "error_message" (TOptional TStr) [Default VNone; MaxLength 1000];
      Fld "progress_percentage" (TOptional TDecimal) [Default VNone] ]
    [].

(** The classes of the file, grouped the way its two comments group them,
    and the shapes by their suffix. *)
Definition entities : list model :=
  [User; UploadedFile; ChatSession; ChatMessage; ChatFileAttachment;
   SearchQuery; VideoProject; VideoFile; VideoEditTask].

Definition create_shapes : list (model * model) :=
  [(UserCreate, User); (ChatSessionCreate, ChatSession);
   (ChatMessageCreate, ChatMessage); (SearchQueryCreate, SearchQuery);
   (VideoProjectCreate, VideoProject); (VideoEditTaskCreate, VideoEditTask)].

Definition update_shapes : list (model * model) :=
  [(UserUpdate, User); (ChatSessionUpdate, ChatSession);
   (VideoProjectUpdate, VideoProject); (VideoEditTaskUpdate, VideoEditTask)].

Definition schemas : list model :=
  entities ++
  [UserCreate; UserUpdate; FileUploadRequest; ChatSessionCreate;
   ChatSessionUpdate; ChatMessageCreate; SearchQueryCreate;
   VideoProjectCreate; VideoProjectUpdate; VideoEditTaskCreate;
   VideoEditTaskUpdate].

(** ** Reading a schema *)

Definition get_field (m : model) (name : string) : option field :=
  List.find (fun f => String.eqb (fname f) name) (mfields m).

(** What validation reports for one attribute, if anything. *)
Definition field_error (f : field) (arg : option value) : option error_kind :=
  match arg with
  | Some v => check_value f v
  | None =>
      match field_default f with
      | Required => Some Missing
      | _ => None
      end
  end.

Definition no_error (o : option error_kind) : bool :=
  match o with None => true | Some _ => false end.

(** The value validation stores for an attribute it accepts; [tk] is the
    reading of the clock a factory takes. *)
Definition field_value (now : clock) (tk : nat) (f : field) (arg : option value) : value :=
  match arg with
  | Some v => v
  | None =>
      match field_default f with
      | DefaultValue d => d
      | _ => VDatetime (now tk)
      end
  end.

Definition error_at (p : gmap string value) (f : field) : option error :=
  Err (fname f) <$> field_error f (p !! fname f).

(** The payload [p] is fine for every attribute of [m] other than [name]. *)
Definition others_valid (m : model) (name : string) (p : gmap string value) : bool :=
  forallb (fun f => String.eqb (fname f) name || no_error (field_error f (p !! fname f)))
    (mfields m).

(** The value [v] passes the checks of attribute [name] of [m]. *)
Definition accepts (m : model) (name : string) (v : value) : bool :=
  match get_field m name with
  | Some f => no_error (check_value f v)
  | None => false
  end.

Definition names_distinct (m : model) : bool :=
  bool_decide (NoDup (field_names m)).

(** ** What the specification adds around the declarations *)

(** Modelled from the spec: the error taxonomy of its section 7, which
    the source does not name.  A bound, length or pattern violation is a
    FieldValidationError, a value outside an enumeration an
    EnumValueError; the taxonomy does not place a missing, ill-typed or
    non-finite value. *)
Inductive error_class : Type :=
| FieldValidationError
| UniquenessConstraintError
| ReferentialIntegrityError
| EnumValueError.

Definition classify (k : error_kind) : option error_class :=
  match k with
  | BelowMinimum _ | TooLong _ | PatternMismatch => Some FieldValidationError
  | NotInEnum _ => Some EnumValueError
  | Missing | WrongType | NotFinite => None
  end.

(** Modelled from the spec: the persistence layer, which is not part of
    the source.  A table holds the stored rows and the next surrogate
    identity; a write is refused when a column declared [unique=True]
    would repeat a stored value.  Values are compared exactly (strings
    character by character); a null never collides. *)
Record table_state : Type := Table {
  rows : list (gmap string value);
  next_id : Z
}.

(** Modelled from the spec: how a creation fails, with the validation
    errors or with a member of the taxonomy and the column at fault. *)
Inductive failure : Type :=
| Invalid (errs : list error)
| Rejected (c : error_class) (column : string).

(** Modelled from the spec: equality of two column values, exact and
    case-sensitive. *)
Definition sql_eq (a b : value) : bool :=
  match a, b with
  | VStr s, VStr t => String.eqb s t
  | VInt n, VInt k => (n =? k)%Z
  | VBool x, VBool y => Bool.eqb x y
  | VDatetime t, VDatetime u => (t =? u)%Z
  | _, _ => false
  end.

(** Modelled from the spec: the object repeats the value a stored row has
    in the column. *)
Definition collides (column : string) (obj row : gmap string value) : bool :=
  match obj !! column, row !! column with
  | Some a, Some b => sql_eq a b
  | _, _ => false
  end.

(** The attributes the source declares with [unique=True]. *)
Definition unique_columns (m : model) : list string :=
  map fname (List.filter is_unique (mfields m)).

(** Modelled from the spec: the first unique column in which the object
    collides with a stored row. *)
Definition unique_violation (m : model) (t : table_state) (obj : gmap string value)
  : option string :=
  List.find (fun c => existsb (collides c obj) (rows t)) (unique_columns m).

(** Modelled from the spec: writing one validated object to its table. *)
Definition insert_row (m : model) (t : table_state) (obj : gmap string value)
  : table_state * (failure + Z) :=
  match unique_violation m t obj with
  | Some c => (t, inl (Rejected UniquenessConstraintError c))
  | None =>
      (Table (rows t ++ [<["id" := VInt (next_id t)]> obj]) (next_id t + 1)%Z,
       inr (next_id t))
  end.

(** Modelled from the spec: creation, that is validation followed by the
    write. *)
Definition create (m : model) (now : clock) (t : table_state) (p : gmap string value)
  : table_state * (failure + Z) :=
  match construct m now p with
  | inl errs => (t, inl (Invalid errs))
  | inr obj => insert_row m t obj
  end.

(** The attributes of the shape that the payload sets. *)
Definition fields_set (shape : model) (p : gmap string value) : list string :=
  List.filter (fun n => bool_decide (is_Some (p !! n))) (field_names shape).

(** Modelled from the spec: applying an Update shape (section 3,
    Lifecycle: partial, unset fields leave existing values unchanged).
    Each attribute the payload set is assigned to the entity, the others
    are not touched. *)
Definition apply_update (entity u : gmap string value) (set : list string)
  : gmap string value :=
  foldl (fun e n => match u !! n with Some v => <[n := v]> e | None => e end)
    entity set.

(** Modelled from the spec: an update request, that is validation of the
    payload by the Update shape followed by its application. *)
Definition update (shape : model) (now : clock) (entity p : gmap string value)
  : list error + gmap string value :=
  match construct shape now p with
  | inl errs => inl errs
  | inr u => inr (apply_update entity u (fields_set shape p))
  end.

(** Modelled from the spec: a sequence of update requests; a refused
    request changes nothing. *)
Fixpoint update_all (shape : model) (now : clock) (entity : gmap string value)
    (ps : list (gmap string value)) : gmap string value :=
  match ps with
  | [] => entity
  | p :: ps' =>
      match update shape now entity p with
      | inl _ => update_all shape now entity ps'
      | inr e' => update_all shape now e' ps'
      end
  end.



(** ** The email shape the specification describes *)

Module SpecEmail.

Definition between (lo hi : N) (c : ascii) : bool :=
  (lo <=? N_of_ascii c)%N && (N_of_ascii c <=? hi)%N.

Definition alnum (c : ascii) : bool :=
  between 65 90 c || between 97 122 c || between 48 57 c.

(** [[A-Za-z0-9_.+-]] *)
Definition local_char (c : ascii) : bool :=
  alnum c || Ascii.eqb c "_" || Ascii.eqb c "." || Ascii.eqb c "+" || Ascii.eqb c "-".

(** [[A-Za-z0-9-]] *)
Definition label_char (c : ascii) : bool :=
  alnum c || Ascii.eqb c "-".

Fixpoint join_dots (labels : list (list ascii)) : list ascii :=
  match labels with
  | [] => []
  | [l] => l
  | l :: ls => l ++ "."%char :: join_dots ls
  end.

Definition label_ok (l : list ascii) : Prop :=
  l <> [] /\ forallb label_char l = true.

(** Modelled from the spec: [local@domain.tld], the local part one or
    more of its characters, the domain at least two labels separated by
    dots, each label one or more of its characters. *)
Definition well_formed (s : list ascii) : Prop :=
  exists (local : list ascii) (labels : list (list ascii)),
    s = local ++ "@"%char :: join_dots labels /\
    local <> [] /\ forallb local_char local = true /\
    (2 <= length labels)%nat /\ Forall label_ok labels.

End SpecEmail.

(** The shape the pattern of the source denotes. *)
Definition pattern_form (s : list ascii) : Prop :=
  exists l d r : list ascii,
    s = l ++ "@"%char :: d ++ "."%char :: r /\
    l <> [] /\ forallb (Regex.in_class email_local_class) l = true /\
    d <> [] /\ forallb (Regex.in_class email_label_class) d = true /\
    r <> [] /\ forallb (Regex.in_class email_tail_class) r = true.

(** ** Sample payloads *)

Definition payload (kvs : list (string * value)) : gmap string value :=
  list_to_map kvs.

Fixpoint text (n : nat) : string :=
  match n with
  | O => EmptyString
  | S n' => String "x" (text n')
  end.

Definition alice : gmap string value :=
  payload [("username", VStr "alice"); ("email", VStr "alice@example.com");
           ("full_name", VStr "Alice A")].

Definition upload (size : Z) : gmap string value :=
  payload [("filename", VStr "a.txt"); ("original_filename", VStr "a.txt");
           ("file_path", VStr "/tmp/a.txt"); ("file_size", VInt size);
           ("mime_type", VStr "text/plain"); ("file_hash", VStr "00");
           ("user_id", VInt 1)].

Definition message (content : string) : gmap string value :=
  payload [("session_id", VInt 1); ("role", VStr "user"); ("content", VStr content)].

Definition edit_task (edit_type : string) : gmap string value :=
  payload [("project_id", VInt 1); ("edit_type", VStr edit_type);
           ("user_prompt", VStr "cut the first ten seconds")].

Definition search (extra : list (string * value)) : gmap string value :=
  payload (extra ++ [("user_id", VInt 1); ("query", VStr "rocq")]).

Definition session (extra : list (string * value)) : gmap string value :=
  payload (extra ++ [("user_id", VInt 1)]).

Definition wall_clock : clock := fun n => (1700000000000000 + Z.of_nat n)%Z.

(** ** Further readings of the declarations *)

(** The attributes a payload has to supply: those declared without
    [default] and without [default_factory]. *)
Definition is_required (f : field) : bool :=
  match field_default f with Required => true | _ => false end.

Definition required_fields (m : model) : list string :=
  map fname (List.filter is_required (mfields m)).

Definition is_factory (f : field) : bool :=
  match field_default f with DefaultUtcnow => true | _ => false end.

Definition omitted (p : gmap string value) (name : string) : bool :=
  match p !! name with None => true | Some _ => false end.

(** How often [datetime.utcnow] has been called when validation reaches
    the attribute [name]: once for each earlier attribute that declares
    the factory and is omitted from the payload. *)
Fixpoint factory_calls (p : gmap string value) (fs : list field) (name : string) : nat :=
  match fs with
  | [] => O
  | f :: fs' =>
      if String.eqb (fname f) name then O
      else ((if is_factory f && omitted p (fname f) then 1 else 0)
            + factory_calls p fs' name)%nat
  end.

Fixpoint kw_foreign_key (ks : list kwarg) : option string :=
  match ks with
  | [] => None
  | ForeignKey target :: _ => Some target
  | _ :: ks' => kw_foreign_key ks'
  end.

Definition primary_keys (m : model) : list string :=
  map fname (List.filter is_primary_key (mfields m)).

Definition find_model (name : string) : option model :=
  List.find (fun m => String.eqb (mname m) name) entities.

Definition find_relationship (m : model) (name : string) : option relationship :=
  List.find (fun r => String.eqb (rname r) name) (relationships m).

(** The column a foreign key of [m] would name to reach the table of
    [target]: [<tablename>.id]. *)
Definition key_column (target : model) : option string :=
  match tablename target with
  | Some t => Some (t ++ ".id")%string
  | None => None
  end.

Definition has_foreign_key_to (m target : model) : bool :=
  match key_column target with
  | Some col =>
      existsb (fun f => match kw_foreign_key (kwargs f) with
                        | Some c => String.eqb c col
                        | None => false
                        end) (mfields m)
  | None => false
  end.

(** [E(value)] and [E[name].value] for an enumeration class. *)
Definition enum_by_value (e : enum) (v : string) : option string :=
  fst <$> List.find (fun nv => String.eqb (snd nv) v) (members e).

Definition enum_value (e : enum) (name : string) : option string :=
  snd <$> List.find (fun nv => String.eqb (fst nv) name) (members e).

Definition enums : list enum :=
  [FileStatus; ChatMessageRole; SearchStatus; VideoStatus; VideoEditType].



(** ** The lifecycle the specification describes *)

Definition foreign_key_names (m : model) : list string :=
  map fname (List.filter is_foreign_key (mfields m)).

(** Modelled from the spec: creation (section 3, Lifecycle: entities are
    created by a handler that is given a Create shape).  The payload is
    validated by constructing the Create shape; the entity is then
    constructed from the attributes of the shape and the keys of its
    owners, of which only the foreign keys of the entity are passed. *)
Definition create_from (shape entity : model) (now : clock)
    (keys p : gmap string value) : list error + gmap string value :=
  match init shape now p with
  | inl errs => inl errs
  | inr s => init entity now (apply_update s keys (foreign_key_names entity))
  end.

(** Modelled from the spec: the records of an entity that the lifecycle
    reaches, created from a Create shape of the entity and then changed
    by its Update shapes, each request at its own time. *)
Inductive reachable (entity : model) : gmap string value -> Prop :=
| reach_created shape now keys p r :
    (shape, entity) ∈ create_shapes ->
    create_from shape entity now keys p = inr r ->
    reachable entity r
| reach_updated shape now r p r' :
    (shape, entity) ∈ update_shapes ->
    reachable entity r ->
    update shape now r p = inr r' ->
    reachable entity r'.

(** ** Proof steps used throughout *)

(** Case analysis on membership in a list written out in the file. *)
Ltac in_list H :=
  apply list_elem_of_In in H; simpl in H;
  repeat (destruct H as [H|H]); try contradiction.

(** Membership in such a list. *)
Ltac is_listed :=
  apply list_elem_of_In; simpl; repeat (first [left; reflexivity | right]).

(** * Facts *)

(** ** Validation, attribute by attribute *)

Section validation.

Variable now : clock.
Variable p : gmap string value.

Lemma validate_field_inl tick f arg tick' k :
  validate_field now tick f arg = (tick', inl k) -> field_error f arg = Some k.
Proof.
  unfold validate_field, field_error.
  destruct arg as [v|].
  - destruct (check_value f v); intros [= <- <-]; reflexivity.
  - destruct (field_default f); intros [= <- <-]; reflexivity.
Qed.

Lemma validate_field_inr tick f arg tick' v :
  validate_field now tick f arg = (tick', inr v) ->
  field_error f arg = None /\ v = field_value now tick f arg /\
  (tick <= tick')%nat.
Proof.
  unfold validate_field, field_error, field_value.
  destruct arg as [a|].
  - destruct (check_value f a); intros [= <- <-]; auto.
  - destruct (field_default f); intros [= <- <-]; auto.
Qed.

Lemma validate_field_le tick f arg tick' r :
  validate_field now tick f arg = (tick', r) -> (tick <= tick')%nat.
Proof.
  unfold validate_field.
  destruct arg; [intros [= <- _]; lia|].
  destruct (field_default f); intros [= <- _]; lia.
Qed.

Lemma validate_fields_tick fs : forall tick,
  (tick <= (validate_fields now tick fs p).1.1)%nat.
Proof.
  induction fs as [|f fs IH]; intros tick; simpl; [lia|].
  destruct (validate_field now tick f (p !! fname f)) as [tick1 r] eqn:E1.
  specialize (IH tick1).
  destruct (validate_fields now tick1 fs p) as [[tick2 errs] obj]; simpl in IH.
  apply validate_field_le in E1.
  destruct r; simpl; lia.
Qed.

(** The errors are those of the failing attributes, in order. *)
Lemma validate_fields_errors fs : forall tick,
  (validate_fields now tick fs p).1.2 = omap (error_at p) fs.
Proof.
  induction fs as [|f fs IH]; intros tick; simpl; [reflexivity|].
  destruct (validate_field now tick f (p !! fname f)) as [tick1 r] eqn:E1.
  specialize (IH tick1).
  destruct (validate_fields now tick1 fs p) as [[tick2 errs] obj]; simpl in IH.
  unfold error_at at 1.
  destruct r as [k|v]; simpl.
  - apply validate_field_inl in E1. rewrite E1. simpl. f_equal. exact IH.
  - apply validate_field_inr in E1 as (E1 & _). rewrite E1. simpl. exact IH.
Qed.

(** Only declared attributes are stored. *)
Lemma validate_fields_undeclared fs name : forall tick,
  name ∉ map fname fs -> (validate_fields now tick fs p).2 !! name = None.
Proof.
  induction fs as [|f fs IH]; intros tick Hn; simpl; [apply lookup_empty|].
  destruct (validate_field now tick f (p !! fname f)) as [tick1 r].
  specialize (IH tick1).
  destruct (validate_fields now tick1 fs p) as [[tick2 errs] obj]; simpl in *.
  apply not_elem_of_cons in Hn as [Hne Hn].
  destruct r; simpl; [auto|].
  rewrite lookup_insert_ne by congruence. auto.
Qed.

(** An accepted attribute is stored with the supplied value, its
    default, or a reading of the clock. *)
Lemma validate_fields_stored fs f : forall tick,
  NoDup (map fname fs) -> f ∈ fs ->
  field_error f (p !! fname f) = None ->
  exists tk, (tick <= tk)%nat /\
    (validate_fields now tick fs p).2 !! fname f
    = Some (field_value now tk f (p !! fname f)).
Proof.
  induction fs as [|g fs IH]; intros tick Hnd Hin Hok; [inversion Hin|].
  simpl in Hnd. apply NoDup_cons in Hnd as [Hfresh Hnd]. simpl.
  destruct (validate_field now tick g (p !! fname g)) as [tick1 r] eqn:E1.
  pose proof (validate_fields_undeclared fs (fname g) tick1 Hfresh) as Hund.
  specialize (IH tick1 Hnd).
  destruct (validate_fields now tick1 fs p) as [[tick2 errs] obj]; simpl in *.
  pose proof (validate_field_le _ _ _ _ _ E1) as Hle.
  apply elem_of_cons in Hin as [->|Hin].
  - destruct r as [k|v].
    + apply validate_field_inl in E1. congruence.
    + apply validate_field_inr in E1 as (_ & -> & _).
      exists tick. split; [lia|]. simpl. apply lookup_insert_eq.
  - destruct (IH Hin Hok) as (tk & Htk & Hl).
    exists tk. split; [lia|].
    assert (fname g <> fname f).
    { intros Heq. apply Hfresh. rewrite Heq. apply list_elem_of_fmap_2. exact Hin. }
    destruct r; simpl; [exact Hl|].
    rewrite lookup_insert_ne by assumption. exact Hl.
Qed.

End validation.

(** ** Construction as a whole *)

Section construction.

Variable m : model.
Variable now : clock.
Variable p : gmap string value.

Lemma construct_unfold :
  construct m now p =
  match omap (error_at p) (mfields m) with
  | [] => inr (validate_fields now 0 (mfields m) p).2
  | errs => inl errs
  end.
Proof.
  unfold construct, validate_model.
  rewrite <- (validate_fields_errors now p (mfields m) 0).
  destruct (validate_fields now 0 (mfields m) p) as [[t errs] obj]; simpl.
  destruct errs; reflexivity.
Qed.

Lemma no_errors_iff :
  omap (error_at p) (mfields m) = [] <->
  forall f, f ∈ mfields m -> field_error f (p !! fname f) = None.
Proof.
  induction (mfields m) as [|g fs IH]; simpl.
  - split; [intros _ f Hf; inversion Hf | reflexivity].
  - unfold error_at at 1.
    destruct (field_error g (p !! fname g)) as [k|] eqn:E; simpl.
    + split; [discriminate|].
      intros H. specialize (H g (list_elem_of_here _ _)). congruence.
    + rewrite IH. split.
      * intros H f Hf. apply elem_of_cons in Hf as [->|Hf]; auto.
      * intros H f Hf. apply H. apply list_elem_of_further. exact Hf.
Qed.

(** Construction succeeds exactly when no attribute is in error. *)
Lemma construct_succeeds :
  (forall f, f ∈ mfields m -> field_error f (p !! fname f) = None) <->
  exists obj, construct m now p = inr obj.
Proof.
  rewrite construct_unfold, <- no_errors_iff.
  destruct (omap (error_at p) (mfields m)); split; eauto; try discriminate.
  intros [obj Hobj]. discriminate.
Qed.

(** An attribute in error makes construction fail with that error. *)
Lemma construct_fails f k :
  f ∈ mfields m -> field_error f (p !! fname f) = Some k ->
  exists errs, construct m now p = inl errs /\ Err (fname f) k ∈ errs.
Proof.
  intros Hf Hk. rewrite construct_unfold.
  assert (Hin : Err (fname f) k ∈ omap (error_at p) (mfields m)).
  { apply list_elem_of_omap. exists f. split; [exact Hf|].
    unfold error_at. rewrite Hk. reflexivity. }
  destruct (omap (error_at p) (mfields m)) as [|e errs]; [inversion Hin|].
  eauto.
Qed.

(** What a constructed object holds for a declared attribute. *)
Lemma construct_stored obj f :
  names_distinct m = true -> construct m now p = inr obj -> f ∈ mfields m ->
  exists tk, obj !! fname f = Some (field_value now tk f (p !! fname f)).
Proof.
  intros Hnd Hc Hf.
  assert (Hok : forall g, g ∈ mfields m -> field_error g (p !! fname g) = None).
  { apply construct_succeeds. eauto. }
  rewrite construct_unfold in Hc.
  destruct (omap (error_at p) (mfields m)); [|discriminate].
  injection Hc as <-.
  apply bool_decide_eq_true in Hnd.
  destruct (validate_fields_stored now p (mfields m) f 0 Hnd Hf (Hok f Hf))
    as (tk & _ & Htk).
  eauto.
Qed.

Lemma construct_undeclared obj name :
  construct m now p = inr obj -> name ∉ field_names m -> obj !! name = None.
Proof.
  rewrite construct_unfold.
  destruct (omap (error_at p) (mfields m)); [|discriminate].
  intros [= <-] Hn. apply validate_fields_undeclared. exact Hn.
Qed.

(** [others_valid] and one more attribute cover the whole class. *)
Lemma others_valid_all name f0 :
  others_valid m name p = true ->
  (forall f, f ∈ mfields m -> fname f = name -> f = f0) ->
  field_error f0 (p !! fname f0) = None ->
  forall f, f ∈ mfields m -> field_error f (p !! fname f) = None.
Proof.
  intros Hov Huniq H0 f Hf.
  unfold others_valid in Hov. rewrite forallb_forall in Hov.
  specialize (Hov f). rewrite <- list_elem_of_In in Hov. specialize (Hov Hf).
  apply orb_true_iff in Hov as [Heq|Hne].
  - apply String.eqb_eq in Heq. rewrite (Huniq f Hf Heq). exact H0.
  - destruct (field_error f (p !! fname f)); [discriminate|reflexivity].
Qed.

End construction.

(** ** Looking an attribute up by name *)

Lemma get_field_elem m name f :
  get_field m name = Some f -> f ∈ mfields m /\ fname f = name.
Proof.
  unfold get_field. intros H. apply find_some in H as [Hin Heq].
  split; [apply list_elem_of_In; exact Hin | apply String.eqb_eq; exact Heq].
Qed.

Lemma get_field_unique m name f0 :
  names_distinct m = true -> get_field m name = Some f0 ->
  forall f, f ∈ mfields m -> fname f = name -> f = f0.
Proof.
  unfold names_distinct, get_field, field_names.
  intros Hnd. apply bool_decide_eq_true in Hnd. revert Hnd.
  induction (mfields m) as [|g fs IH]; simpl; intros Hnd Hfind f Hf Hname.
  - inversion Hf.
  - apply NoDup_cons in Hnd as [Hfresh Hnd].
    destruct (String.eqb (fname g) name) eqn:E.
    + injection Hfind as <-. apply String.eqb_eq in E.
      apply elem_of_cons in Hf as [->|Hf]; [reflexivity|].
      exfalso. apply Hfresh. rewrite E, <- Hname.
      apply list_elem_of_fmap_2. exact Hf.
    + apply elem_of_cons in Hf as [->|Hf].
      * apply String.eqb_neq in E. contradiction.
      * apply IH; assumption.
Qed.

Section by_name.

Variable m : model.
Variable now : clock.
Variable p : gmap string value.
Variable name : string.
Variable f : field.
Hypothesis Hdistinct : names_distinct m = true.
Hypothesis Hfield : get_field m name = Some f.

Lemma construct_accepts v :
  p !! name = Some v -> check_value f v = None ->
  others_valid m name p = true ->
  exists obj, construct m now p = inr obj /\ obj !! name = Some v.
Proof.
  intros Hp Hcheck Hothers.
  destruct (get_field_elem _ _ _ Hfield) as [Hin Hname].
  assert (Hall : forall g, g ∈ mfields m -> field_error g (p !! fname g) = None).
  { apply (others_valid_all m p name f Hothers).
    - apply get_field_unique; assumption.
    - rewrite Hname, Hp. exact Hcheck. }
  apply (construct_succeeds m now) in Hall as [obj Hobj].
  exists obj. split; [exact Hobj|].
  destruct (construct_stored m now p obj f Hdistinct Hobj Hin) as [tk Htk].
  rewrite Hname, Hp in Htk. exact Htk.
Qed.

Lemma construct_rejects v k :
  p !! name = Some v -> check_value f v = Some k ->
  exists errs, construct m now p = inl errs /\ Err name k ∈ errs.
Proof.
  intros Hp Hcheck.
  destruct (get_field_elem _ _ _ Hfield) as [Hin Hname].
  rewrite <- Hname. apply construct_fails; [exact Hin|].
  rewrite Hname, Hp. exact Hcheck.
Qed.

Lemma construct_default d obj :
  field_default f = DefaultValue d -> p !! name = None ->
  construct m now p = inr obj -> obj !! name = Some d.
Proof.
  intros Hd Hp Hobj.
  destruct (get_field_elem _ _ _ Hfield) as [Hin Hname].
  destruct (construct_stored m now p obj f Hdistinct Hobj Hin) as [tk Htk].
  rewrite Hname, Hp in Htk. unfold field_value in Htk. rewrite Hd in Htk.
  exact Htk.
Qed.

Lemma construct_keeps v obj :
  p !! name = Some v -> construct m now p = inr obj -> obj !! name = Some v.
Proof.
  intros Hp Hobj.
  destruct (get_field_elem _ _ _ Hfield) as [Hin Hname].
  destruct (construct_stored m now p obj f Hdistinct Hobj Hin) as [tk Htk].
  rewrite Hname, Hp in Htk. exact Htk.
Qed.

End by_name.

(** ** The constructor of a table class *)

(** Keys that name no attribute are not stored. *)
Lemma table_fields_undeclared now (p : gmap string value) fs name : forall tick,
  name ∉ map fname fs -> (table_fields now tick fs p).2 !! name = None.
Proof.
  induction fs as [|f fs IH]; intros tick Hn; simpl; [apply lookup_empty|].
  apply not_elem_of_cons in Hn as [Hne Hn].
  destruct (p !! fname f) as [v|].
  - specialize (IH tick Hn). destruct (table_fields now tick fs p) as [t obj].
    simpl in *. rewrite lookup_insert_ne by congruence. exact IH.
  - destruct (field_default f) as [|d|].
    + apply IH. exact Hn.
    + specialize (IH tick Hn). destruct (table_fields now tick fs p) as [t obj].
      simpl in *. rewrite lookup_insert_ne by congruence. exact IH.
    + specialize (IH (S tick) Hn). destruct (table_fields now (S tick) fs p) as [t obj].
      simpl in *. rewrite lookup_insert_ne by congruence. exact IH.
Qed.

Lemma table_fields_lookup now (p : gmap string value) fs f : forall tick,
  NoDup (map fname fs) -> f ∈ fs ->
  (table_fields now tick fs p).2 !! fname f
  = match p !! fname f with
    | Some v => Some v
    | None =>
        match field_default f with
        | DefaultValue d => Some d
        | DefaultUtcnow => Some (VDatetime (now (tick + factory_calls p fs (fname f))%nat))
        | Required => None
        end
    end.
Proof.
  induction fs as [|g fs IH]; intros tick Hnd Hin; [inversion Hin|].
  simpl in Hnd. apply NoDup_cons in Hnd as [Hfresh Hnd].
  apply elem_of_cons in Hin as [->|Hin].
  - simpl. rewrite String.eqb_refl, Nat.add_0_r.
    destruct (p !! fname g) as [v|].
    + destruct (table_fields now tick fs p) as [t obj]. simpl. apply lookup_insert_eq.
    + destruct (field_default g) as [|d|].
      * apply table_fields_undeclared. exact Hfresh.
      * destruct (table_fields now tick fs p) as [t obj]. simpl. apply lookup_insert_eq.
      * destruct (table_fields now (S tick) fs p) as [t obj]. simpl.
        apply lookup_insert_eq.
  - assert (Hne : fname g <> fname f).
    { intros Heq. apply Hfresh. rewrite Heq. apply list_elem_of_fmap_2. exact Hin. }
    apply String.eqb_neq in Hne as Hneb.
    simpl. rewrite Hneb. unfold is_factory, omitted.
    destruct (p !! fname g) as [v|].
    + rewrite andb_false_r, Nat.add_0_l.
      specialize (IH tick Hnd Hin). destruct (table_fields now tick fs p) as [t obj].
      simpl in *. rewrite lookup_insert_ne by assumption. exact IH.
    + destruct (field_default g) as [|d|]; simpl.
      * apply IH; assumption.
      * specialize (IH tick Hnd Hin). destruct (table_fields now tick fs p) as [t obj].
        simpl in *. rewrite lookup_insert_ne by assumption. exact IH.
      * specialize (IH (S tick) Hnd Hin).
        destruct (table_fields now (S tick) fs p) as [t obj].
        simpl in *. rewrite lookup_insert_ne by assumption.
        rewrite IH. replace (tick + S (factory_calls p fs (fname f)))%nat
          with (S tick + factory_calls p fs (fname f))%nat by lia.
        reflexivity.
Qed.

Section table_constructor.

Variable m : model.
Variable now : clock.
Variable p : gmap string value.
Hypothesis Htable : table m = true.

(** The constructor of a table class never refuses. *)
Lemma init_table : init m now p = inr (table_fields now 0 (mfields m) p).2.
Proof. unfold init. rewrite Htable. reflexivity. Qed.

(** It stores what it is given. *)
Lemma init_table_keeps name f v :
  names_distinct m = true -> get_field m name = Some f -> p !! name = Some v ->
  exists obj, init m now p = inr obj /\ obj !! name = Some v.
Proof.
  intros Hnd Hf Hp. rewrite init_table. eexists. split; [reflexivity|].
  destruct (get_field_elem _ _ _ Hf) as [Hin <-].
  apply bool_decide_eq_true in Hnd.
  rewrite (table_fields_lookup now p (mfields m) f 0 Hnd Hin), Hp. reflexivity.
Qed.

(** An omitted attribute takes its default. *)
Lemma init_table_default name f d :
  names_distinct m = true -> get_field m name = Some f ->
  field_default f = DefaultValue d -> p !! name = None ->
  exists obj, init m now p = inr obj /\ obj !! name = Some d.
Proof.
  intros Hnd Hf Hd Hp. rewrite init_table. eexists. split; [reflexivity|].
  destruct (get_field_elem _ _ _ Hf) as [Hin <-].
  apply bool_decide_eq_true in Hnd.
  rewrite (table_fields_lookup now p (mfields m) f 0 Hnd Hin), Hp, Hd. reflexivity.
Qed.

(** An omitted required attribute stays unset. *)
Lemma init_table_unset name f :
  names_distinct m = true -> get_field m name = Some f ->
  is_required f = true -> p !! name = None ->
  exists obj, init m now p = inr obj /\ obj !! name = None.
Proof.
  intros Hnd Hf Hreq Hp. rewrite init_table. eexists. split; [reflexivity|].
  destruct (get_field_elem _ _ _ Hf) as [Hin <-].
  apply bool_decide_eq_true in Hnd.
  rewrite (table_fields_lookup now p (mfields m) f 0 Hnd Hin), Hp.
  unfold is_required in Hreq.
  destruct (field_default f); [reflexivity | discriminate | discriminate].
Qed.

End table_constructor.

(** A class that is not a table validates in its constructor. *)
Lemma init_shape m now (p : gmap string value) :
  table m = false -> init m now p = model_validate m now p.
Proof. intros Ht. unfold init, model_validate. rewrite Ht. reflexivity. Qed.

(** ** Bounds: [file_size] and [content] *)

Lemma check_file_size n :
  check_value (Fld "file_size" TInt [Ge 0]) (VInt n)
  = if (0 <=? n)%Z then None else Some (BelowMinimum 0).
Proof.
  unfold check_value, check_max_length, check_ge, check_regex. simpl.
  destruct (0 <=? n)%Z; reflexivity.
Qed.

Lemma check_content s :
  check_value (Fld "content" TStr [MaxLength 10000]) (VStr s)
  = if (Z.of_nat (String.length s) <=? 10000)%Z then None else Some (TooLong 10000).
Proof.
  unfold check_value, check_max_length, check_ge, check_regex. simpl.
  destruct (Z.of_nat (String.length s) <=? 10000)%Z; reflexivity.
Qed.

(** C1, as stated, fails: the constructors of the table classes do not
    check.  An [UploadedFile] is constructed with [file_size = -1] and a
    [ChatMessage] with a content of 10001 characters. *)
Lemma table_constructor_skips_bounds :
  exists file msg,
    init UploadedFile wall_clock (upload (-1)) = inr file /\
    file !! "file_size" = Some (VInt (-1)) /\
    init ChatMessage wall_clock (message (text (Z.to_nat 10001))) = inr msg /\
    msg !! "content" = Some (VStr (text (Z.to_nat 10001))).
Proof.
  exists (table_fields wall_clock 0 (mfields UploadedFile) (upload (-1))).2.
  exists (table_fields wall_clock 0 (mfields ChatMessage)
            (message (text (Z.to_nat 10001)))).2.
  repeat split; reflexivity.
Qed.

(** C1, amended.  Validation of an [UploadedFile] payload, and the
    constructor of the shape [FileUploadRequest], accept [file_size = 0]
    and refuse [file_size = -1] with a bound error on [file_size];
    validation of a [ChatMessage] payload, and the constructor of the
    shape [ChatMessageCreate], accept a content of 10000 characters and
    refuse one of 10001 with a length error on [content].  Both errors
    are FieldValidationErrors.  The other attributes of the payload are
    arbitrary valid ones where validation succeeds, and arbitrary where
    it fails.  The constructors of the table classes [UploadedFile] and
    [ChatMessage] store the value they are given. *)
Theorem bounds_checked_by_validation :
  (forall m now p,
      m = UploadedFile \/ m = FileUploadRequest ->
      p !! "file_size" = Some (VInt 0) ->
      others_valid m "file_size" p = true ->
      exists obj, model_validate m now p = inr obj /\
                  obj !! "file_size" = Some (VInt 0)) /\
  (forall m now p,
      m = UploadedFile \/ m = FileUploadRequest ->
      p !! "file_size" = Some (VInt (-1)) ->
      exists errs, model_validate m now p = inl errs /\
                   Err "file_size" (BelowMinimum 0) ∈ errs) /\
  classify (BelowMinimum 0) = Some FieldValidationError /\
  (forall m now p s,
      m = ChatMessage \/ m = ChatMessageCreate ->
      p !! "content" = Some (VStr s) ->
      Z.of_nat (String.length s) = 10000%Z ->
      others_valid m "content" p = true ->
      exists obj, model_validate m now p = inr obj /\
                  obj !! "content" = Some (VStr s)) /\
  (forall m now p s,
      m = ChatMessage \/ m = ChatMessageCreate ->
      p !! "content" = Some (VStr s) ->
      Z.of_nat (String.length s) = 10001%Z ->
      exists errs, model_validate m now p = inl errs /\
                   Err "content" (TooLong 10000) ∈ errs) /\
  classify (TooLong 10000) = Some FieldValidationError /\
  (forall m now p,
      m = FileUploadRequest \/ m = ChatMessageCreate ->
      init m now p = model_validate m now p) /\
  (forall now (p : gmap string value) v,
      p !! "file_size" = Some v ->
      exists obj, init UploadedFile now p = inr obj /\ obj !! "file_size" = Some v) /\
  (forall now (p : gmap string value) v,
      p !! "content" = Some v ->
      exists obj, init ChatMessage now p = inr obj /\ obj !! "content" = Some v).
Proof.
  unfold model_validate.
  split; [|split; [|split; [|split; [|split; [|split; [|split; [|split]]]]]]].
  - intros m now p [-> | ->] Hp Ho;
      (eapply construct_accepts; [reflexivity|reflexivity|exact Hp| |exact Ho]);
      rewrite check_file_size; reflexivity.
  - intros m now p [-> | ->] Hp;
      (eapply construct_rejects; [reflexivity|exact Hp|]);
      rewrite check_file_size; reflexivity.
  - reflexivity.
  - intros m now p s [-> | ->] Hp Hlen Ho;
      (eapply construct_accepts; [reflexivity|reflexivity|exact Hp| |exact Ho]);
      rewrite check_content, Hlen; reflexivity.
  - intros m now p s [-> | ->] Hp Hlen;
      (eapply construct_rejects; [reflexivity|exact Hp|]);
      rewrite check_content, Hlen; reflexivity.
  - reflexivity.
  - intros m now p [-> | ->]; reflexivity.
  - intros now p v Hp.
    apply (init_table_keeps UploadedFile now p eq_refl "file_size" _ v eq_refl eq_refl Hp).
  - intros now p v Hp.
    apply (init_table_keeps ChatMessage now p eq_refl "content" _ v eq_refl eq_refl Hp).
Qed.

Lemma bounds_checked_by_validation_witness :
  (exists obj, model_validate UploadedFile wall_clock (upload 0) = inr obj /\
               obj !! "file_size" = Some (VInt 0)) /\
  (exists errs, model_validate UploadedFile wall_clock (upload (-1)) = inl errs /\
                Err "file_size" (BelowMinimum 0) ∈ errs) /\
  (exists obj,
      model_validate ChatMessageCreate wall_clock
        (payload [("role", VStr "user"); ("content", VStr (text (Z.to_nat 10000)))])
      = inr obj /\
      obj !! "content" = Some (VStr (text (Z.to_nat 10000)))) /\
  (exists errs,
      model_validate ChatMessage wall_clock (message (text (Z.to_nat 10001))) = inl errs /\
      Err "content" (TooLong 10000) ∈ errs).
Proof.
  destruct bounds_checked_by_validation as (H1 & H2 & _ & H3 & H4 & _).
  split; [|split; [|split]].
  - apply H1; [left; reflexivity | reflexivity | reflexivity].
  - apply H2; [left; reflexivity | reflexivity].
  - apply (H3 ChatMessageCreate _ _ (text (Z.to_nat 10000)));
      [right; reflexivity | reflexivity | reflexivity | reflexivity].
  - apply (H4 ChatMessage _ _ (text (Z.to_nat 10001)));
      [left; reflexivity | reflexivity | reflexivity].
Defined.

(** ** Defaults *)

Lemma schemas_names_distinct m : m ∈ schemas -> names_distinct m = true.
Proof.
  assert (H : forallb names_distinct schemas = true) by (reflexivity).
  rewrite forallb_forall in H. intros Hm. apply H, list_elem_of_In, Hm.
Qed.

Lemma omitted_takes_default m now p f d obj :
  m ∈ schemas -> f ∈ mfields m -> field_default f = DefaultValue d ->
  p !! fname f = None -> construct m now p = inr obj ->
  obj !! fname f = Some d.
Proof.
  intros Hm Hf Hd Hp Hobj.
  destruct (construct_stored m now p obj f (schemas_names_distinct m Hm) Hobj Hf)
    as [tk Htk].
  rewrite Hp in Htk. unfold field_value in Htk. rewrite Hd in Htk. exact Htk.
Qed.

Lemma create_default_is_entity_default c e f d g :
  (c, e) ∈ create_shapes -> f ∈ mfields c ->
  field_default f = DefaultValue d ->
  get_field e (fname f) = Some g -> field_default g = DefaultValue d.
Proof.
  intros Hce Hf Hd Hg.
  in_list Hce; injection Hce as <- <-;
    in_list Hf; subst f;
    vm_compute in Hd; try discriminate Hd; injection Hd as <-;
    vm_compute in Hg; try discriminate Hg; injection Hg as <-;
    reflexivity.
Qed.

(** C2.  In every class of the file, an attribute with a declared default
    that the payload omits holds that default in the constructed object;
    a default declared by a Create shape is also the default the entity
    declares for the attribute of that name.  A [User] made from
    username, email and full name alone has the quota 5368709120, no
    storage used and is active; a [ChatSession] made without [ai_model]
    or [temperature] has ["gpt-3.5-turbo"] and 0.7; a [SearchQuery] made
    without [search_engines] has [["google"]]; the same holds for the
    Create shapes. *)
Theorem defaults_applied :
  (forall m now p f d obj,
      m ∈ schemas -> f ∈ mfields m -> field_default f = DefaultValue d ->
      p !! fname f = None -> construct m now p = inr obj ->
      obj !! fname f = Some d) /\
  (forall c e f d g,
      (c, e) ∈ create_shapes -> f ∈ mfields c ->
      field_default f = DefaultValue d ->
      get_field e (fname f) = Some g -> field_default g = DefaultValue d) /\
  (forall now, exists obj,
      construct User now alice = inr obj /\
      obj !! "username" = Some (VStr "alice") /\
      obj !! "storage_quota" = Some (VInt 5368709120) /\
      obj !! "storage_used" = Some (VInt 0) /\
      obj !! "is_active" = Some (VBool true)) /\
  (forall now p obj,
      construct User now p = inr obj ->
      (p !! "storage_quota" = None -> obj !! "storage_quota" = Some (VInt 5368709120)) /\
      (p !! "storage_used" = None -> obj !! "storage_used" = Some (VInt 0)) /\
      (p !! "is_active" = None -> obj !! "is_active" = Some (VBool true))) /\
  (forall m now p obj,
      m = ChatSession \/ m = ChatSessionCreate ->
      construct m now p = inr obj ->
      (p !! "ai_model" = None -> obj !! "ai_model" = Some (VStr "gpt-3.5-turbo")) /\
      (p !! "temperature" = None -> obj !! "temperature" = Some (VDecimal 7 (-1)))) /\
  (forall m now p obj,
      m = SearchQuery \/ m = SearchQueryCreate ->
      construct m now p = inr obj ->
      p !! "search_engines" = None ->
      obj !! "search_engines" = Some (VList [VStr "google"])) /\
  (forall now, exists obj,
      construct ChatSession now (session []) = inr obj /\
      obj !! "ai_model" = Some (VStr "gpt-3.5-turbo") /\
      obj !! "temperature" = Some (VDecimal 7 (-1))) /\
  (forall now, exists obj,
      construct SearchQuery now (search []) = inr obj /\
      obj !! "search_engines" = Some (VList [VStr "google"])).
Proof.
  split; [|split; [|split; [|split; [|split; [|split; [|split]]]]]].
  - intros m now p f d obj. apply omitted_takes_default.
  - exact create_default_is_entity_default.
  - intros now.
    assert (Hok : exists obj, construct User now alice = inr obj).
    { apply construct_succeeds. intros f Hf. in_list Hf; subst f; reflexivity. }
    destruct Hok as [obj Hobj]. exists obj. split; [exact Hobj|].
    repeat split.
    + eapply (construct_keeps User now alice "username"); try reflexivity. exact Hobj.
    + eapply (construct_default User now alice "storage_quota"); try reflexivity. exact Hobj.
    + eapply (construct_default User now alice "storage_used"); try reflexivity. exact Hobj.
    + eapply (construct_default User now alice "is_active"); try reflexivity. exact Hobj.
  - intros now p obj Hobj. repeat split; intros Hp.
    + eapply (construct_default User now p "storage_quota"); try reflexivity; assumption.
    + eapply (construct_default User now p "storage_used"); try reflexivity; assumption.
    + eapply (construct_default User now p "is_active"); try reflexivity; assumption.
  - intros m now p obj [-> | ->] Hobj; split; intros Hp.
    + eapply (construct_default ChatSession now p "ai_model"); try reflexivity; assumption.
    + eapply (construct_default ChatSession now p "temperature"); try reflexivity; assumption.
    + eapply (construct_default ChatSessionCreate now p "ai_model"); try reflexivity; assumption.
    + eapply (construct_default ChatSessionCreate now p "temperature"); try reflexivity; assumption.
  - intros m now p obj [-> | ->] Hobj Hp.
    + eapply (construct_default SearchQuery now p "search_engines"); try reflexivity; assumption.
    + eapply (construct_default SearchQueryCreate now p "search_engines"); try reflexivity; assumption.
  - intros now.
    assert (Hok : exists obj, construct ChatSession now (session []) = inr obj).
    { apply construct_succeeds. intros f Hf. in_list Hf; subst f; reflexivity. }
    destruct Hok as [obj Hobj]. exists obj. split; [exact Hobj|]. split.
    + eapply (construct_default ChatSession now (session []) "ai_model"); try reflexivity. exact Hobj.
    + eapply (construct_default ChatSession now (session []) "temperature"); try reflexivity. exact Hobj.
  - intros now.
    assert (Hok : exists obj, construct SearchQuery now (search []) = inr obj).
    { apply construct_succeeds. intros f Hf. in_list Hf; subst f; reflexivity. }
    destruct Hok as [obj Hobj]. exists obj. split; [exact Hobj|].
    eapply (construct_default SearchQuery now (search []) "search_engines"); try reflexivity. exact Hobj.
Qed.

Lemma defaults_applied_witness :
  exists obj,
    construct ChatSessionCreate wall_clock (payload [("title", VStr "T")]) = inr obj /\
    obj !! "ai_model" = Some (VStr "gpt-3.5-turbo") /\
    obj !! "max_tokens" = Some (VInt 2048).
Proof.
  destruct defaults_applied as (H & _).
  assert (Hok : exists obj,
             construct ChatSessionCreate wall_clock (payload [("title", VStr "T")]) = inr obj).
  { exists (snd (validate_fields wall_clock 0 (mfields ChatSessionCreate)
                   (payload [("title", VStr "T")]))).
    reflexivity. }
  destruct Hok as [obj Hobj]. exists obj. split; [exact Hobj|]. split.
  - apply (H ChatSessionCreate wall_clock (payload [("title", VStr "T")])
             (Fld "ai_model" (TOptional TStr) [Default (VStr "gpt-3.5-turbo"); MaxLength 100])
             (VStr "gpt-3.5-turbo") obj);
      [ is_listed | is_listed | reflexivity | reflexivity | exact Hobj ].
  - apply (H ChatSessionCreate wall_clock (payload [("title", VStr "T")])
             (Fld "max_tokens" (TOptional TInt) [Default (VInt 2048)])
             (VInt 2048) obj);
      [ is_listed | is_listed | reflexivity | reflexivity | exact Hobj ].
Defined.

(** ** The matcher decides the denotation *)

Module RegexFacts.
Import Regex.

Lemma Matches_cat r1 r2 w :
  Matches (Cat r1 r2) w <->
  exists s1 s2, w = s1 ++ s2 /\ Matches r1 s1 /\ Matches r2 s2.
Proof.
  split.
  - intros H. inversion H; subst. eauto.
  - intros (s1 & s2 & -> & H1 & H2). constructor; assumption.
Qed.

Lemma Matches_lit c w : Matches (Lit c) w <-> w = [c].
Proof.
  split.
  - intros H. inversion H. reflexivity.
  - intros ->. constructor.
Qed.

Lemma nullable_Matches r : nullable r = true <-> Matches r [].
Proof.
  induction r; simpl.
  - split; [constructor | reflexivity].
  - split; [discriminate | intros H; inversion H].
  - split; [discriminate | intros H; inversion H].
  - rewrite andb_true_iff, IHr1, IHr2. split.
    + intros [H1 H2]. apply (MCat _ _ [] [] H1 H2).
    + intros H. apply Matches_cat in H as (s1 & s2 & Heq & H1 & H2).
      symmetry in Heq. apply app_eq_nil in Heq as [-> ->]. auto.
  - rewrite orb_true_iff, IHr1, IHr2. split.
    + intros [H|H]; [apply MAltL | apply MAltR]; exact H.
    + intros H. inversion H; subst; auto.
  - split; [constructor | reflexivity].
  - split; [discriminate | intros H; inversion H].
Qed.

Lemma Matches_deriv_1 r w :
  Matches r w -> forall c s, w = c :: s -> Matches (deriv c r) s.
Proof.
  induction 1 as [| d | items d Hd | r1 r2 s1 s2 H1 IH1 H2 IH2
                 | r1 r2 w H IH | r1 r2 w H IH | r | r s1 s2 H1 IH1 H2 IH2];
    intros c s Heq; simpl.
  - discriminate.
  - injection Heq as -> <-. rewrite Ascii.eqb_refl. constructor.
  - injection Heq as -> <-. rewrite Hd. constructor.
  - destruct s1 as [|c1 s1]; simpl in Heq.
    + apply nullable_Matches in H1. rewrite H1.
      apply MAltR. apply IH2. exact Heq.
    + injection Heq as -> <-.
      destruct (nullable r1).
      * apply MAltL. constructor; [apply IH1; reflexivity | exact H2].
      * constructor; [apply IH1; reflexivity | exact H2].
  - apply MAltL. apply IH. exact Heq.
  - apply MAltR. apply IH. exact Heq.
  - discriminate.
  - destruct s1 as [|c1 s1]; simpl in Heq.
    + apply (IH2 c s Heq).
    + injection Heq as -> <-.
      constructor; [apply IH1; reflexivity | exact H2].
Qed.

Lemma Matches_deriv_2 r : forall c s,
  Matches (deriv c r) s -> Matches r (c :: s).
Proof.
  induction r as [| d | items | r1 IH1 r2 IH2 | r1 IH1 r2 IH2 | r IH |];
    intros c s H; simpl in H.
  - inversion H.
  - destruct (Ascii.eqb c d) eqn:E; inversion H; subst.
    apply Ascii.eqb_eq in E as ->. constructor.
  - destruct (in_class items c) eqn:E; inversion H; subst.
    constructor. exact E.
  - assert (Hcat : forall w, Matches (Cat (deriv c r1) r2) w ->
                             Matches (Cat r1 r2) (c :: w)).
    { intros w Hw. apply Matches_cat in Hw as (s1 & s2 & -> & Ha & Hb).
      apply (MCat r1 r2 (c :: s1) s2); [apply IH1; exact Ha | exact Hb]. }
    destruct (nullable r1) eqn:E.
    + inversion H; subst; [apply Hcat; assumption|].
      apply (MCat r1 r2 [] (c :: s)).
      * apply nullable_Matches. exact E.
      * apply IH2. assumption.
    + apply Hcat. exact H.
  - inversion H; subst; [apply MAltL; apply IH1 | apply MAltR; apply IH2];
      assumption.
  - apply Matches_cat in H as (s1 & s2 & -> & Ha & Hb).
    apply (MStarCons r (c :: s1) s2); [apply IH; exact Ha | exact Hb].
  - inversion H.
Qed.

Theorem matches_Matches r s : matches r s = true <-> Matches r s.
Proof.
  revert r. induction s as [|c s IH]; intros r; simpl.
  - apply nullable_Matches.
  - rewrite IH. split.
    + apply Matches_deriv_2.
    + intros H. apply (Matches_deriv_1 r (c :: s) H). reflexivity.
Qed.

(** *** Repetitions of a character class *)

Lemma Matches_class items w :
  Matches (Class items) w <-> exists c, w = [c] /\ in_class items c = true.
Proof.
  split.
  - intros H. inversion H; subst. eauto.
  - intros (c & -> & Hc). constructor. exact Hc.
Qed.

Lemma Matches_star_class_1 r w :
  Matches r w -> forall cs, r = Star (Class cs) ->
  forallb (in_class cs) w = true.
Proof.
  induction 1 as [| | | | | | r | r s1 s2 H1 _ H2 IH2]; intros cs Heq;
    try discriminate.
  - reflexivity.
  - injection Heq as ->.
    apply Matches_class in H1 as (c & -> & Hc).
    simpl. rewrite Hc. apply IH2. reflexivity.
Qed.

Lemma Matches_star_class items w :
  Matches (Star (Class items)) w <-> forallb (in_class items) w = true.
Proof.
  split.
  - intros H. apply (Matches_star_class_1 _ _ H). reflexivity.
  - induction w as [|c w IH]; simpl; intros H; [constructor|].
    apply andb_true_iff in H as [Hc Hw].
    apply (MStarCons _ [c] w); [constructor; exact Hc | apply IH; exact Hw].
Qed.

Lemma Matches_plus_class items w :
  Matches (Plus (Class items)) w <->
  w <> [] /\ forallb (in_class items) w = true.
Proof.
  unfold Plus. split.
  - intros H. apply Matches_cat in H as (s1 & s2 & -> & Ha & Hb).
    apply Matches_class in Ha as (c & -> & Hc).
    apply Matches_star_class in Hb.
    split; [discriminate|]. simpl. rewrite Hc. exact Hb.
  - intros [Hne Hall]. destruct w as [|c w]; [contradiction|].
    simpl in Hall. apply andb_true_iff in Hall as [Hc Hw].
    apply (MCat _ _ [c] w); [constructor; exact Hc|].
    apply Matches_star_class. exact Hw.
Qed.

(** *** [re.match] *)

Lemma splits_spec s pre rest :
  (pre, rest) ∈ splits s <-> s = pre ++ rest.
Proof.
  revert pre. induction s as [|c s IH]; intros pre; simpl.
  - rewrite list_elem_of_singleton. split.
    + intros [= -> ->]. reflexivity.
    + intros H. symmetry in H. apply app_eq_nil in H as [-> ->]. reflexivity.
  - rewrite elem_of_cons, list_elem_of_fmap. split.
    + intros [[= -> ->] | ([pre' rest'] & [= -> ->] & Hin)]; [reflexivity|].
      simpl. f_equal. apply IH. exact Hin.
    + destruct pre as [|c' pre]; simpl; intros Heq.
      * left. subst rest. reflexivity.
      * injection Heq as <- ->. right. exists (pre, rest).
        split; [reflexivity|]. apply IH. reflexivity.
Qed.

Theorem re_match_spec p s :
  re_match p s = true <->
  exists pre rest, s = pre ++ rest /\ Matches (body p) pre /\ end_ok p rest = true.
Proof.
  unfold re_match. rewrite existsb_exists. split.
  - intros ([pre rest] & Hin & H). simpl in H.
    apply andb_true_iff in H as [Hm He].
    exists pre, rest. repeat split.
    + apply splits_spec, list_elem_of_In. exact Hin.
    + apply matches_Matches. exact Hm.
    + exact He.
  - intros (pre & rest & Heq & Hm & He). exists (pre, rest). split.
    + apply list_elem_of_In, splits_spec. exact Heq.
    + simpl. apply andb_true_iff. split; [apply matches_Matches; exact Hm | exact He].
Qed.

Lemma at_dollar_spec rest :
  at_dollar rest = true <-> rest = [] \/ rest = [newline].
Proof.
  destruct rest as [|c [|d rest]]; simpl.
  - split; auto.
  - rewrite Ascii.eqb_eq. split.
    + intros ->. auto.
    + intros [H|H]; [discriminate | injection H; auto].
  - split; [discriminate | intros [H|H]; discriminate].
Qed.

End RegexFacts.

(** ** The email pattern *)

Section email.
Import Regex RegexFacts.

Lemma email_body_form s : Matches (body email_regex) s <-> pattern_form s.
Proof.
  unfold email_regex, pattern_form. simpl. split.
  - intros H.
    apply Matches_cat in H as (l & s2 & -> & Hl & H).
    apply Matches_cat in H as (a & s3 & -> & Ha & H).
    apply Matches_cat in H as (d & s4 & -> & Hd & H).
    apply Matches_cat in H as (o & r & -> & Ho & Hr).
    apply Matches_lit in Ha as ->. apply Matches_lit in Ho as ->.
    apply Matches_plus_class in Hl as [Hl1 Hl2].
    apply Matches_plus_class in Hd as [Hd1 Hd2].
    apply Matches_plus_class in Hr as [Hr1 Hr2].
    exists l, d, r. simpl. auto 10.
  - intros (l & d & r & -> & Hl1 & Hl2 & Hd1 & Hd2 & Hr1 & Hr2).
    apply (MCat _ _ l); [apply Matches_plus_class; auto|].
    apply (MCat _ _ ["@"%char]); [constructor|].
    apply (MCat _ _ d); [apply Matches_plus_class; auto|].
    apply (MCat _ _ ["."%char]); [constructor|].
    apply Matches_plus_class; auto.
Qed.

Lemma email_regex_match s :
  re_match email_regex s = true <->
  pattern_form s \/ exists s', s = s' ++ [newline] /\ pattern_form s'.
Proof.
  rewrite re_match_spec. split.
  - intros (pre & rest & -> & Hm & He).
    apply email_body_form in Hm.
    unfold end_ok in He. simpl in He.
    apply at_dollar_spec in He as [-> | ->].
    + left. rewrite app_nil_r. exact Hm.
    + right. eauto.
  - intros [H | (s' & -> & H)].
    + exists s, []. rewrite app_nil_r.
      split; [reflexivity|]. split; [apply email_body_form; exact H | reflexivity].
    + exists s', [newline].
      split; [reflexivity|]. split; [apply email_body_form; exact H | reflexivity].
Qed.

Lemma check_email s :
  check_value (Fld "email" TStr [MaxLength 255; Unique; RegexKw email_regex]) (VStr s)
  = if (Z.of_nat (String.length s) <=? 255)%Z then None else Some (TooLong 255).
Proof.
  unfold check_value, check_max_length, check_ge, check_regex. simpl.
  destruct (Z.of_nat (String.length s) <=? 255)%Z; reflexivity.
Qed.

Lemma accepts_email s :
  accepts User "email" (VStr s) = true <-> (Z.of_nat (String.length s) <= 255)%Z.
Proof.
  unfold accepts.
  change (get_field User "email")
    with (Some (Fld "email" TStr [MaxLength 255; Unique; RegexKw email_regex])).
  cbv beta iota. rewrite check_email.
  destruct (Z.leb_spec (Z.of_nat (String.length s)) 255) as [Hle|Hgt]; simpl.
  - split; auto.
  - split; [discriminate | lia].
Qed.

(** What a well-formed address of the specification ends with. *)
Lemma join_dots_last labels :
  labels <> [] -> Forall SpecEmail.label_ok labels ->
  exists w c, SpecEmail.join_dots labels = w ++ [c] /\ SpecEmail.label_char c = true.
Proof.
  induction labels as [|l ls IH]; intros Hne Hall; [contradiction|].
  apply Forall_cons in Hall as [[Hl1 Hl2] Hls].
  destruct ls as [|l' ls].
  - simpl. destruct (exists_last Hl1) as (w & c & ->).
    exists w, c. split; [reflexivity|].
    rewrite forallb_app in Hl2. apply andb_true_iff in Hl2 as [_ Hc].
    simpl in Hc. rewrite andb_true_r in Hc. exact Hc.
  - destruct IH as (w & c & Hw & Hc); [discriminate | exact Hls |].
    exists (l ++ "."%char :: w), c. split; [|exact Hc].
    change (SpecEmail.join_dots (l :: l' :: ls))
      with (l ++ "."%char :: SpecEmail.join_dots (l' :: ls)).
    rewrite Hw, <- app_assoc. reflexivity.
Qed.

Lemma well_formed_last s :
  SpecEmail.well_formed s ->
  exists w c, s = w ++ [c] /\ SpecEmail.label_char c = true.
Proof.
  intros (local & labels & -> & _ & _ & Hlen & Hall).
  destruct (join_dots_last labels) as (w & c & Hw & Hc).
  - intros ->. simpl in Hlen. lia.
  - exact Hall.
  - exists (local ++ "@"%char :: w), c. split; [|exact Hc].
    rewrite Hw, <- app_assoc. reflexivity.
Qed.

End email.

(** The specified shape is within the pattern: its character classes are
    those of the source, and a label is a run of tail characters. *)
Lemma spec_classes_agree c :
  SpecEmail.local_char c = Regex.in_class email_local_class c /\
  SpecEmail.label_char c = Regex.in_class email_label_class c /\
  (SpecEmail.label_char c = true -> Regex.in_class email_tail_class c = true).
Proof.
  destruct c as [[] [] [] [] [] [] [] []];
    (split; [reflexivity | split; [reflexivity | intros H; first [reflexivity | discriminate H]]]).
Qed.

Lemma forallb_impl (P Q : ascii -> bool) l :
  (forall c, P c = true -> Q c = true) -> forallb P l = true -> forallb Q l = true.
Proof.
  intros HPQ. induction l as [|c l IH]; simpl; [reflexivity|].
  rewrite !andb_true_iff. intros [Hc Hl]. auto.
Qed.

Lemma join_dots_tail labels :
  labels <> [] -> Forall SpecEmail.label_ok labels ->
  SpecEmail.join_dots labels <> [] /\
  forallb (Regex.in_class email_tail_class) (SpecEmail.join_dots labels) = true.
Proof.
  induction labels as [|l ls IH]; intros Hne Hall; [contradiction|].
  apply Forall_cons in Hall as [[Hl1 Hl2] Hls].
  assert (Hl : forallb (Regex.in_class email_tail_class) l = true).
  { revert Hl2. apply forallb_impl. intros c. apply spec_classes_agree. }
  destruct ls as [|l' ls]; [simpl; auto|].
  destruct IH as [_ IH]; [discriminate | exact Hls |].
  change (SpecEmail.join_dots (l :: l' :: ls))
    with (l ++ "."%char :: SpecEmail.join_dots (l' :: ls)).
  split.
  - destruct l; discriminate.
  - rewrite forallb_app, Hl. simpl forallb at 1.
    change (Regex.in_class email_tail_class "."%char) with true.
    simpl andb. exact IH.
Qed.

Lemma well_formed_pattern_form s : SpecEmail.well_formed s -> pattern_form s.
Proof.
  intros (local & labels & -> & Hl1 & Hl2 & Hlen & Hall).
  destruct labels as [|d [|l' ls]]; simpl in Hlen; try lia.
  apply Forall_cons in Hall as [[Hd1 Hd2] Hrest].
  destruct (join_dots_tail (l' :: ls)) as [Hr1 Hr2]; [discriminate | exact Hrest |].
  exists local, d, (SpecEmail.join_dots (l' :: ls)).
  split; [reflexivity|]. split; [exact Hl1|]. split.
  { revert Hl2. apply forallb_impl. intros c Hc.
    destruct (spec_classes_agree c) as (<- & _). exact Hc. }
  split; [exact Hd1|]. split.
  { revert Hd2. apply forallb_impl. intros c Hc.
    destruct (spec_classes_agree c) as (_ & <- & _). exact Hc. }
  split; [exact Hr1 | exact Hr2].
Qed.

(** C3, as stated, fails: the address [a@b.c.] ends with an empty label,
    so it is not of the specified form, and it is accepted. *)
Lemma email_trailing_dot_accepted :
  accepts User "email" (VStr "a@b.c.") = true /\
  ~ SpecEmail.well_formed (list_ascii_of_string "a@b.c.").
Proof.
  split; [reflexivity|].
  intros H. apply well_formed_last in H as (w & c & Heq & Hc).
  change (list_ascii_of_string "a@b.c.")
    with (["a"; "@"; "b"; "."; "c"]%char ++ ["."%char]) in Heq.
  apply app_inj_tail in Heq as [_ <-]. discriminate Hc.
Qed.

(** C3, amended.  Validation accepts as the email of a [User] every
    string of the specified form that has at most 255 characters, and no
    string of more than 255 characters; the constructor of the table
    class stores the value it is given.  The pattern the source declares
    is wider than the specified form: it denotes one or more characters
    of [[A-Za-z0-9_.+-]], an [@], one or more characters of
    [[A-Za-z0-9-]], a dot, and one or more characters of [[A-Za-z0-9.-]],
    in which dots may be adjacent or last, so it matches every string of
    the specified form and also [a@b.c.]. *)
Theorem email_form_within_pattern :
  (forall s,
      SpecEmail.well_formed (list_ascii_of_string s) ->
      (Z.of_nat (String.length s) <= 255)%Z ->
      accepts User "email" (VStr s) = true) /\
  (forall s,
      accepts User "email" (VStr s) = true -> (Z.of_nat (String.length s) <= 255)%Z) /\
  (forall now (p : gmap string value) v,
      p !! "email" = Some v ->
      exists obj, init User now p = inr obj /\ obj !! "email" = Some v) /\
  get_field User "email"
  = Some (Fld "email" TStr [MaxLength 255; Unique; RegexKw email_regex]) /\
  (forall cs, Regex.matches (Regex.body email_regex) cs = true <-> pattern_form cs) /\
  (forall cs, SpecEmail.well_formed cs -> Regex.re_match email_regex cs = true) /\
  Regex.re_match email_regex (list_ascii_of_string "a@b.c.") = true.
Proof.
  split; [|split; [|split; [|split; [|split; [|split]]]]].
  - intros s _ Hlen. apply accepts_email. exact Hlen.
  - intros s. apply accepts_email.
  - intros now p v Hp.
    apply (init_table_keeps User now p eq_refl "email" _ v eq_refl eq_refl Hp).
  - reflexivity.
  - intros cs. rewrite RegexFacts.matches_Matches. apply email_body_form.
  - intros cs Hwf. apply email_regex_match. left.
    apply well_formed_pattern_form. exact Hwf.
  - reflexivity.
Qed.

Lemma email_form_within_pattern_witness :
  accepts User "email" (VStr "alice@example.com") = true /\
  Regex.re_match email_regex (list_ascii_of_string "alice@example.com") = true.
Proof.
  destruct email_form_within_pattern as (Hacc & _ & _ & _ & _ & Hpat & _).
  assert (Hwf : SpecEmail.well_formed (list_ascii_of_string "alice@example.com")).
  { exists (list_ascii_of_string "alice"),
           [list_ascii_of_string "example"; list_ascii_of_string "com"].
    split; [reflexivity|]. split; [discriminate|]. split; [reflexivity|].
    split; [simpl; lia|].
    repeat constructor; try discriminate. }
  split.
  - apply Hacc; [exact Hwf | simpl; lia].
  - apply Hpat. exact Hwf.
Defined.

(** ** Enumerated attributes *)

Lemma existsb_eqb_elem s (l : list string) :
  existsb (String.eqb s) l = true <-> s ∈ l.
Proof.
  rewrite existsb_exists. split.
  - intros (x & Hin & Heq). apply String.eqb_eq in Heq as ->.
    apply list_elem_of_In. exact Hin.
  - intros Hin. exists s. split; [apply list_elem_of_In; exact Hin|].
    apply String.eqb_refl.
Qed.

Lemma enum_fields_unconstrained m f e :
  m ∈ schemas -> f ∈ mfields m -> strip_optional (ftyp f) = TEnum e ->
  kw_max_length (kwargs f) = None /\ kw_regex (kwargs f) = None.
Proof.
  intros Hm Hf He.
  assert (H : forallb (fun m =>
                forallb (fun f =>
                  match strip_optional (ftyp f) with
                  | TEnum _ =>
                      match kw_max_length (kwargs f), kw_regex (kwargs f) with
                      | None, None => true
                      | _, _ => false
                      end
                  | _ => true
                  end) (mfields m)) schemas = true)
    by (reflexivity).
  rewrite forallb_forall in H. specialize (H m).
  rewrite <- list_elem_of_In in H. specialize (H Hm).
  rewrite forallb_forall in H. specialize (H f).
  rewrite <- list_elem_of_In in H. specialize (H Hf).
  rewrite He in H.
  destruct (kw_max_length (kwargs f)); [discriminate|].
  destruct (kw_regex (kwargs f)); [discriminate|]. auto.
Qed.

Lemma check_enum_value m f e s :
  m ∈ schemas -> f ∈ mfields m -> strip_optional (ftyp f) = TEnum e ->
  check_value f (VStr s)
  = if existsb (String.eqb s) (enum_values e) then None else Some (NotInEnum e).
Proof.
  intros Hm Hf He.
  destruct (enum_fields_unconstrained m f e Hm Hf He) as [Hml Hre].
  unfold check_value, check_ge, check_max_length, check_regex.
  rewrite Hml.
  assert (Ht : type_error (ftyp f) (VStr s) = type_error (TEnum e) (VStr s)).
  { destruct (ftyp f); simpl in He; simplify_eq; reflexivity. }
  rewrite Ht. simpl.
  destruct (existsb (String.eqb s) (enum_values e)); simpl;
    [destruct (kw_ge (kwargs f))|]; reflexivity.
Qed.

(** C4, as stated, fails: the constructor of the table class
    [VideoEditTask] does not check, and builds a task whose [edit_type]
    is ["rotate"]. *)
Lemma table_constructor_skips_enum :
  exists task,
    init VideoEditTask wall_clock (edit_task "rotate") = inr task /\
    task !! "edit_type" = Some (VStr "rotate").
Proof.
  exists (table_fields wall_clock 0 (mfields VideoEditTask) (edit_task "rotate")).2.
  split; reflexivity.
Qed.

(** C4, amended.  In every class, validation of an attribute whose
    annotation is an enumeration (or an optional one) accepts a string
    exactly when it is the value of a declared member, and reports any
    other string as not in the enumeration, an EnumValueError.
    Validation of a [VideoEditTask] payload, and the constructor of the
    shape [VideoEditTaskCreate], accept [edit_type = "trim"] and refuse
    [edit_type = "rotate"] with that error.  The constructor of the table
    class [VideoEditTask] stores the value it is given. *)
Theorem enum_checked_by_validation :
  (forall m f e s,
      m ∈ schemas -> f ∈ mfields m -> strip_optional (ftyp f) = TEnum e ->
      (check_value f (VStr s) = None <-> s ∈ enum_values e) /\
      (s ∉ enum_values e -> check_value f (VStr s) = Some (NotInEnum e))) /\
  (forall e, classify (NotInEnum e) = Some EnumValueError) /\
  enum_values VideoEditType = ["trim"; "merge"; "filter"; "enhance"; "custom"] /\
  (forall m now p,
      m = VideoEditTask \/ m = VideoEditTaskCreate ->
      p !! "edit_type" = Some (VStr "trim") ->
      others_valid m "edit_type" p = true ->
      exists obj, model_validate m now p = inr obj /\
                  obj !! "edit_type" = Some (VStr "trim")) /\
  (forall m now p,
      m = VideoEditTask \/ m = VideoEditTaskCreate ->
      p !! "edit_type" = Some (VStr "rotate") ->
      exists errs, model_validate m now p = inl errs /\
                   Err "edit_type" (NotInEnum VideoEditType) ∈ errs) /\
  (forall now p, init VideoEditTaskCreate now p = model_validate VideoEditTaskCreate now p) /\
  (forall now (p : gmap string value) v,
      p !! "edit_type" = Some v ->
      exists obj, init VideoEditTask now p = inr obj /\ obj !! "edit_type" = Some v).
Proof.
  unfold model_validate.
  split; [|split; [|split; [|split; [|split; [|split]]]]].
  - intros m f e s Hm Hf He.
    rewrite (check_enum_value m f e s Hm Hf He), <- existsb_eqb_elem.
    destruct (existsb (String.eqb s) (enum_values e)); split.
    + split; reflexivity.
    + intros H. exfalso. apply H. reflexivity.
    + split; discriminate.
    + reflexivity.
  - reflexivity.
  - reflexivity.
  - intros m now p [-> | ->] Hp Ho.
    + eapply construct_accepts; [reflexivity|reflexivity|exact Hp|reflexivity|exact Ho].
    + eapply construct_accepts; [reflexivity|reflexivity|exact Hp|reflexivity|exact Ho].
  - intros m now p [-> | ->] Hp.
    + eapply construct_rejects; [reflexivity|exact Hp|reflexivity].
    + eapply construct_rejects; [reflexivity|exact Hp|reflexivity].
  - intros now p. reflexivity.
  - intros now p v Hp.
    apply (init_table_keeps VideoEditTask now p eq_refl "edit_type" _ v eq_refl eq_refl Hp).
Qed.

Lemma enum_checked_by_validation_witness :
  (exists obj, model_validate VideoEditTask wall_clock (edit_task "trim") = inr obj /\
               obj !! "edit_type" = Some (VStr "trim")) /\
  (exists errs, model_validate VideoEditTask wall_clock (edit_task "rotate") = inl errs /\
                Err "edit_type" (NotInEnum VideoEditType) ∈ errs) /\
  (exists errs,
      init VideoEditTaskCreate wall_clock (edit_task "rotate") = inl errs /\
      Err "edit_type" (NotInEnum VideoEditType) ∈ errs).
Proof.
  destruct enum_checked_by_validation as (_ & _ & _ & Hok & Hbad & Hshape & _).
  split; [|split].
  - apply Hok; [left; reflexivity | reflexivity | reflexivity].
  - apply Hbad; [left; reflexivity | reflexivity].
  - rewrite Hshape. apply Hbad; [right; reflexivity | reflexivity].
Defined.

(** ** Unique columns *)

Lemma collides_same column (obj row : gmap string value) s :
  obj !! column = Some (VStr s) -> row !! column = Some (VStr s) ->
  collides column obj row = true.
Proof.
  intros Ho Hr. unfold collides. rewrite Ho, Hr. simpl. apply String.eqb_refl.
Qed.

Lemma unique_violation_found m t obj column row :
  column ∈ unique_columns m -> row ∈ rows t ->
  collides column obj row = true ->
  exists c, unique_violation m t obj = Some c /\ c ∈ unique_columns m.
Proof.
  intros Hc Hrow Hcol. unfold unique_violation.
  destruct (List.find _ (unique_columns m)) as [c|] eqn:E.
  - exists c. split; [reflexivity|].
    apply find_some in E as [Hin _]. apply list_elem_of_In. exact Hin.
  - exfalso.
    apply list_elem_of_In in Hc.
    pose proof (find_none _ _ E column Hc) as Hnone. simpl in Hnone.
    assert (Hex : existsb (collides column obj) (rows t) = true).
    { apply existsb_exists. exists row. split; [apply list_elem_of_In; exact Hrow|exact Hcol]. }
    congruence.
Qed.

Lemma create_store_on_failure m now t p e :
  (create m now t p).2 = inl e -> (create m now t p).1 = t.
Proof.
  unfold create, insert_row.
  destruct (construct m now p); [reflexivity|].
  destruct (unique_violation m t g); [reflexivity|discriminate].
Qed.

(** C5.  When the table already holds a user with some email, creating a
    user with the same email (the same characters, case included) fails
    and leaves the table as it was: with the UniquenessConstraintError on
    a unique column if the payload is otherwise valid, with the
    validation errors if it is not.  The same holds for the username.
    An email that differs only by case does not collide. *)
Theorem duplicate_user_rejected :
  unique_columns User = ["username"; "email"] /\
  (forall column now t row p s,
      column = "email" \/ column = "username" ->
      row ∈ rows t -> row !! column = Some (VStr s) ->
      p !! column = Some (VStr s) ->
      (create User now t p).1 = t /\
      (exists e, (create User now t p).2 = inl e) /\
      (forall obj, construct User now p = inr obj ->
         exists c, (c = "username" \/ c = "email") /\
           create User now t p = (t, inl (Rejected UniquenessConstraintError c)))) /\
  (forall now,
      (create User now (Table [payload [("username", VStr "al");
                                       ("email", VStr "Alice@example.com")]] 2) alice).2
      = inr 2%Z).
Proof.
  split; [reflexivity|]. split.
  - intros column now t row p s Hcol Hrow Hr Hp.
    assert (Hrej : forall obj, construct User now p = inr obj ->
              exists c, (c = "username" \/ c = "email") /\
                create User now t p = (t, inl (Rejected UniquenessConstraintError c))).
    { intros obj Hobj.
      assert (Ho : obj !! column = Some (VStr s)).
      { destruct Hcol as [-> | ->].
        - eapply (construct_keeps User now p "email"); try reflexivity; eassumption.
        - eapply (construct_keeps User now p "username"); try reflexivity; eassumption. }
      destruct (unique_violation_found User t obj column row) as (c & Hc & Hin).
      - destruct Hcol as [-> | ->]; is_listed.
      - exact Hrow.
      - eapply collides_same; eassumption.
      - exists c. split.
        + in_list Hin; subst c; auto.
        + unfold create, insert_row. rewrite Hobj, Hc. reflexivity. }
    destruct (construct User now p) as [errs|obj] eqn:Hc.
    + unfold create. rewrite Hc. simpl. split; [reflexivity|]. split; [eauto|].
      intros obj Hobj. discriminate.
    + destruct (Hrej obj eq_refl) as (c & Hcc & Hcr).
      rewrite Hcr. simpl. split; [reflexivity|]. split; [eauto|].
      intros obj' Hobj'. exists c. split; [exact Hcc|reflexivity].
  - intros now. unfold create.
    assert (Hok : exists obj, construct User now alice = inr obj).
    { apply construct_succeeds. intros f Hf. in_list Hf; subst f; reflexivity. }
    destruct Hok as [obj Hobj]. rewrite Hobj.
    assert (Hu : obj !! "username" = Some (VStr "alice")).
    { eapply (construct_keeps User now alice "username"); try reflexivity. exact Hobj. }
    assert (He : obj !! "email" = Some (VStr "alice@example.com")).
    { eapply (construct_keeps User now alice "email"); try reflexivity. exact Hobj. }
    unfold insert_row, unique_violation.
    change (unique_columns User) with ["username"; "email"].
    simpl. unfold collides. rewrite Hu, He. reflexivity.
Qed.

Lemma duplicate_user_rejected_witness :
  (create User wall_clock
     (Table [payload [("id", VInt 1); ("username", VStr "alice");
                      ("email", VStr "alice@example.com")]] 2)
     (payload [("username", VStr "alice2"); ("email", VStr "alice@example.com");
               ("full_name", VStr "Alice B")])).1
  = Table [payload [("id", VInt 1); ("username", VStr "alice");
                    ("email", VStr "alice@example.com")]] 2.
Proof.
  destruct duplicate_user_rejected as (_ & H & _).
  apply (H "email" wall_clock _
           (payload [("id", VInt 1); ("username", VStr "alice");
                     ("email", VStr "alice@example.com")]) _ "alice@example.com").
  - left. reflexivity.
  - simpl. apply list_elem_of_here.
  - reflexivity.
  - reflexivity.
Defined.

(** ** Applying an Update shape *)

Section updates.

Variable u : gmap string value.

Lemma apply_update_untouched set : forall (entity : gmap string value) name,
  name ∉ set -> apply_update entity u set !! name = entity !! name.
Proof.
  unfold apply_update.
  induction set as [|n set IH]; intros entity name Hn; simpl; [reflexivity|].
  apply not_elem_of_cons in Hn as [Hne Hn].
  rewrite IH by exact Hn.
  destruct (u !! n); [|reflexivity].
  apply lookup_insert_ne. congruence.
Qed.

Lemma apply_update_assigned set : forall (entity : gmap string value) name v,
  name ∈ set -> u !! name = Some v ->
  apply_update entity u set !! name = Some v.
Proof.
  induction set as [|n set IH]; intros entity name v Hin Hu; [inversion Hin|].
  change (apply_update entity u (n :: set))
    with (apply_update (match u !! n with Some w => <[n := w]> entity | None => entity end)
            u set).
  destruct (decide (name ∈ set)) as [Hset|Hset].
  - apply IH; assumption.
  - apply elem_of_cons in Hin as [->|Hin]; [|contradiction].
    rewrite apply_update_untouched by exact Hset.
    rewrite Hu. apply lookup_insert_eq.
Qed.

End updates.

Lemma fields_set_elem shape (p : gmap string value) name :
  name ∈ fields_set shape p <-> name ∈ field_names shape /\ is_Some (p !! name).
Proof.
  unfold fields_set. rewrite list_elem_of_In, filter_In, <- list_elem_of_In.
  rewrite bool_decide_eq_true. reflexivity.
Qed.

Section update_frame.

Variable shape : model.
Variable now : clock.
Variables entity p e' : gmap string value.
Hypothesis Hupd : update shape now entity p = inr e'.

(** An attribute the payload does not set keeps its value. *)
Lemma update_unset name : p !! name = None -> e' !! name = entity !! name.
Proof.
  intros Hp. unfold update in Hupd.
  destruct (construct shape now p) as [|u]; [discriminate|].
  injection Hupd as <-. apply apply_update_untouched.
  rewrite fields_set_elem, Hp. intros [_ [v Hv]]. discriminate.
Qed.

(** So does an attribute the shape does not declare. *)
Lemma update_undeclared name :
  name ∉ field_names shape -> e' !! name = entity !! name.
Proof.
  intros Hn. unfold update in Hupd.
  destruct (construct shape now p) as [|u]; [discriminate|].
  injection Hupd as <-. apply apply_update_untouched.
  rewrite fields_set_elem. tauto.
Qed.

(** An attribute the payload sets takes the value of the payload. *)
Lemma update_set name v :
  names_distinct shape = true -> name ∈ field_names shape ->
  p !! name = Some v -> e' !! name = Some v.
Proof.
  intros Hnd Hin Hp. unfold update in Hupd.
  destruct (construct shape now p) as [|u] eqn:Hc; [discriminate|].
  injection Hupd as <-.
  apply apply_update_assigned.
  - rewrite fields_set_elem, Hp. eauto.
  - apply list_elem_of_fmap in Hin as (f & -> & Hf).
    destruct (construct_stored shape now p u f Hnd Hc Hf) as [tk Htk].
    rewrite Hp in Htk. exact Htk.
Qed.

End update_frame.

Lemma update_all_frame shape now name :
  name ∉ field_names shape ->
  forall ps entity, update_all shape now entity ps !! name = entity !! name.
Proof.
  intros Hn. induction ps as [|p ps IH]; intros entity; simpl; [reflexivity|].
  destruct (update shape now entity p) as [errs|e'] eqn:E.
  - apply IH.
  - rewrite IH. eapply update_undeclared; eassumption.
Qed.

Lemma update_shape_facts shape entity_model :
  (shape, entity_model) ∈ update_shapes ->
  table shape = false /\ relationships shape = [] /\
  names_distinct shape = true /\
  (forall f, f ∈ mfields shape ->
     is_optional (ftyp f) = true /\ field_default f = DefaultValue VNone /\
     is_primary_key f = false /\ is_foreign_key f = false /\
     fname f ∈ field_names entity_model) /\
  (forall name,
     name ∈ ["id"; "created_at"; "updated_at"; "completed_at"; "user_id";
             "project_id"] ->
     name ∉ field_names shape).
Proof.
  intros H. in_list H; injection H as <- <-.
  all: split; [reflexivity|]; split; [reflexivity|]; split; [reflexivity|]; split.
  all: try (intros f Hf; in_list Hf; subst f;
            repeat split; try reflexivity; is_listed).
  all: intros name Hname; in_list Hname; subst name;
    intros Hin; in_list Hin; discriminate Hin.
Qed.

(** C7.  Every attribute of an Update shape is optional with default
    [None]; an Update shape is not a table, declares no relationship, no
    primary key and no foreign key, and each of its attributes is an
    attribute of its entity.  Applying a validated Update shape assigns
    the attributes the payload sets and leaves every other attribute of
    the entity as it was; the empty payload is valid and changes
    nothing. *)
Theorem update_changes_only_set_fields :
  (forall shape entity_model,
      (shape, entity_model) ∈ update_shapes ->
      table shape = false /\ relationships shape = [] /\
      (forall f, f ∈ mfields shape ->
         is_optional (ftyp f) = true /\ field_default f = DefaultValue VNone /\
         is_primary_key f = false /\ is_foreign_key f = false /\
         fname f ∈ field_names entity_model) /\
      "id" ∉ field_names shape) /\
  (forall shape entity_model now entity p e',
      (shape, entity_model) ∈ update_shapes ->
      update shape now entity p = inr e' ->
      forall name,
        (p !! name = None -> e' !! name = entity !! name) /\
        (name ∉ field_names shape -> e' !! name = entity !! name) /\
        (forall v, name ∈ field_names shape -> p !! name = Some v ->
                   e' !! name = Some v)) /\
  (forall shape entity_model now entity,
      (shape, entity_model) ∈ update_shapes ->
      update shape now entity ∅ = inr entity).
Proof.
  split; [|split].
  - intros shape em H.
    destruct (update_shape_facts shape em H) as (Ht & Hr & _ & Hf & Hn).
    split; [exact Ht|]. split; [exact Hr|]. split; [exact Hf|].
    apply Hn. is_listed.
  - intros shape em now entity p e' H Hupd name.
    destruct (update_shape_facts shape em H) as (_ & _ & Hnd & _ & _).
    split; [|split].
    + eapply update_unset; eassumption.
    + eapply update_undeclared; eassumption.
    + intros v Hin Hp. eapply update_set; eassumption.
  - intros shape em now entity H.
    destruct (update_shape_facts shape em H) as (_ & _ & _ & Hf & _).
    assert (Hok : exists u, construct shape now ∅ = inr u).
    { apply construct_succeeds. intros f Hin.
      destruct (Hf f Hin) as (_ & Hd & _).
      unfold field_error. rewrite lookup_empty, Hd. reflexivity. }
    destruct Hok as [u Hu]. unfold update. rewrite Hu. f_equal.
    assert (Hset : fields_set shape ∅ = []).
    { unfold fields_set. induction (field_names shape) as [|n ns IH]; [reflexivity|].
      simpl. rewrite IH.
      rewrite bool_decide_eq_false_2; [reflexivity|].
      rewrite lookup_empty. intros [v Hv]. discriminate. }
    rewrite Hset. reflexivity.
Qed.

Lemma update_changes_only_set_fields_witness :
  exists e',
    update UserUpdate wall_clock
      (payload [("id", VInt 7); ("username", VStr "alice"); ("full_name", VStr "Alice A")])
      (payload [("full_name", VStr "Alice B")]) = inr e' /\
    e' !! "full_name" = Some (VStr "Alice B") /\
    e' !! "username" = Some (VStr "alice") /\
    e' !! "id" = Some (VInt 7).
Proof.
  destruct update_changes_only_set_fields as (_ & H & _).
  pose (entity := payload [("id", VInt 7); ("username", VStr "alice");
                           ("full_name", VStr "Alice A")]).
  pose (p := payload [("full_name", VStr "Alice B")]).
  pose (e' := apply_update entity
                (validate_fields wall_clock 0 (mfields UserUpdate) p).2
                (fields_set UserUpdate p)).
  assert (He' : update UserUpdate wall_clock entity p = inr e') by reflexivity.
  exists e'. split; [exact He'|].
  assert (Hin : (UserUpdate, User) ∈ update_shapes) by is_listed.
  destruct (H _ _ _ _ _ _ Hin He' "full_name") as (_ & _ & H1).
  destruct (H _ _ _ _ _ _ Hin He' "username") as (H2 & _ & _).
  destruct (H _ _ _ _ _ _ Hin He' "id") as (H3 & _ & _).
  split; [|split].
  - apply H1; [is_listed | reflexivity].
  - rewrite H2 by reflexivity. reflexivity.
  - rewrite H3 by reflexivity. reflexivity.
Defined.

(** ** Timestamps *)

Lemma created_at_declared m :
  m ∈ entities -> created_at_field ∈ mfields m /\ names_distinct m = true.
Proof.
  intros Hm. in_list Hm; subst m; (split; [is_listed | reflexivity]).
Qed.

Lemma updated_at_declared m :
  m ∈ entities -> m <> ChatMessage -> m <> ChatFileAttachment ->
  updated_at_field ∈ mfields m.
Proof.
  intros Hm H1 H2. in_list Hm; subst m; try contradiction; is_listed.
Qed.

Lemma factory_reading m now p obj f :
  names_distinct m = true -> f ∈ mfields m ->
  field_default f = DefaultUtcnow -> p !! fname f = None ->
  construct m now p = inr obj ->
  exists tk, obj !! fname f = Some (VDatetime (now tk)).
Proof.
  intros Hnd Hf Hd Hp Hobj.
  destruct (construct_stored m now p obj f Hnd Hobj Hf) as [tk Htk].
  exists tk. rewrite Hp in Htk. unfold field_value in Htk. rewrite Hd in Htk.
  exact Htk.
Qed.

(** Every entity has [created_at], set at creation to a reading of the
    clock when the payload omits it; every entity but [ChatMessage] and
    [ChatFileAttachment] has [updated_at], set the same way.  No Update
    shape declares either attribute, so assigning the attributes of an
    Update shape touches neither. *)
Theorem timestamps_frame :
  (forall m now p obj,
      m ∈ entities -> construct m now p = inr obj ->
      p !! "created_at" = None ->
      exists tk, obj !! "created_at" = Some (VDatetime (now tk))) /\
  (forall m now p obj,
      m ∈ entities -> m <> ChatMessage -> m <> ChatFileAttachment ->
      construct m now p = inr obj -> p !! "updated_at" = None ->
      exists tk, obj !! "updated_at" = Some (VDatetime (now tk))) /\
  ("updated_at" ∉ field_names ChatMessage) /\
  ("updated_at" ∉ field_names ChatFileAttachment) /\
  (forall shape entity_model,
      (shape, entity_model) ∈ update_shapes ->
      ("created_at" ∉ field_names shape) /\ ("updated_at" ∉ field_names shape)) /\
  (forall shape entity_model now entity ps,
      (shape, entity_model) ∈ update_shapes ->
      update_all shape now entity ps !! "created_at" = entity !! "created_at" /\
      update_all shape now entity ps !! "updated_at" = entity !! "updated_at").
Proof.
  split; [|split; [|split; [|split; [|split]]]].
  - intros m now p obj Hm Hobj Hp.
    destruct (created_at_declared m Hm) as [Hf Hnd].
    apply (factory_reading m now p obj created_at_field Hnd Hf eq_refl Hp Hobj).
  - intros m now p obj Hm H1 H2 Hobj Hp.
    destruct (created_at_declared m Hm) as [_ Hnd].
    pose proof (updated_at_declared m Hm H1 H2) as Hf.
    apply (factory_reading m now p obj updated_at_field Hnd Hf eq_refl Hp Hobj).
  - intros Hin. in_list Hin; discriminate Hin.
  - intros Hin. in_list Hin; discriminate Hin.
  - intros shape em H.
    destruct (update_shape_facts shape em H) as (_ & _ & _ & _ & Hn).
    split; apply Hn; is_listed.
  - intros shape em now entity ps H.
    destruct (update_shape_facts shape em H) as (_ & _ & _ & _ & Hn).
    split; apply update_all_frame; apply Hn; is_listed.
Qed.

Lemma timestamps_frame_witness :
  update_all UserUpdate wall_clock
    (payload [("created_at", VDatetime 5); ("updated_at", VDatetime 5)])
    [payload [("full_name", VStr "B")]; payload [("is_active", VBool false)]]
    !! "updated_at"
  = Some (VDatetime 5).
Proof.
  destruct timestamps_frame as (_ & _ & _ & _ & _ & H).
  destruct (H UserUpdate User wall_clock
              (payload [("created_at", VDatetime 5); ("updated_at", VDatetime 5)])
              [payload [("full_name", VStr "B")]; payload [("is_active", VBool false)]])
    as [_ Hu]; [is_listed|].
  rewrite Hu. reflexivity.
Defined.

(** ** Setting one more attribute in a valid payload *)

Lemma construct_override m now (p : gmap string value) name f v obj :
  names_distinct m = true -> get_field m name = Some f ->
  check_value f v = None -> construct m now p = inr obj ->
  exists obj',
    construct m now (<[name := v]> p) = inr obj' /\
    obj' !! name = Some v /\
    (forall other g, get_field m other = Some g -> other <> name ->
                     field_default g <> DefaultUtcnow ->
                     obj' !! other = obj !! other).
Proof.
  intros Hnd Hf Hv Hobj.
  assert (Hok : forall g, g ∈ mfields m -> field_error g (p !! fname g) = None).
  { apply (construct_succeeds m now). eauto. }
  assert (Hok' : forall g, g ∈ mfields m ->
                           field_error g (<[name := v]> p !! fname g) = None).
  { intros g Hg. destruct (decide (fname g = name)) as [Heq|Hne].
    - rewrite (get_field_unique m name f Hnd Hf g Hg Heq).
      destruct (get_field_elem _ _ _ Hf) as [_ ->].
      rewrite lookup_insert_eq. exact Hv.
    - rewrite lookup_insert_ne by congruence. apply Hok. exact Hg. }
  apply (construct_succeeds m now) in Hok' as [obj' Hobj'].
  exists obj'. split; [exact Hobj'|]. split.
  - apply (construct_keeps m now (<[name := v]> p) name f Hnd Hf v obj');
      [apply lookup_insert_eq | exact Hobj'].
  - intros other g Hg Hne Hd.
    destruct (get_field_elem _ _ _ Hg) as [Hin Hname].
    destruct (construct_stored m now _ obj' g Hnd Hobj' Hin) as [tk' Htk'].
    destruct (construct_stored m now _ obj g Hnd Hobj Hin) as [tk Htk].
    rewrite Hname in Htk', Htk. rewrite Htk', Htk. f_equal.
    rewrite lookup_insert_ne by congruence.
    specialize (Hok g Hin). rewrite Hname in Hok.
    unfold field_value. unfold field_error in Hok.
    destruct (p !! other); [reflexivity|].
    destruct (field_default g); [discriminate | reflexivity | contradiction].
Qed.

(** ** Completion time and status *)

Lemma check_enum_member m name f e st :
  m ∈ schemas -> get_field m name = Some f -> strip_optional (ftyp f) = TEnum e ->
  st ∈ enum_values e -> check_value f (VStr st) = None.
Proof.
  intros Hm Hf He Hst.
  destruct (get_field_elem _ _ _ Hf) as [Hin _].
  rewrite (check_enum_value m f e st Hm Hin He).
  apply existsb_eqb_elem in Hst. rewrite Hst. reflexivity.
Qed.

(** X16.  The classes themselves do not tie [completed_at] to the
    status.  For [SearchQuery] and [VideoEditTask], [completed_at] is
    null when the payload omits it; a valid payload stays valid with any
    declared status together with a null or a non-null [completed_at],
    and both are stored as given.  No Create or Update shape declares
    [completed_at], so assigning the attributes of an Update shape leaves
    it as it is. *)
Theorem completed_at_unconstrained :
  (forall m now p obj,
      m = SearchQuery \/ m = VideoEditTask ->
      construct m now p = inr obj -> p !! "completed_at" = None ->
      obj !! "completed_at" = Some VNone) /\
  (forall m e now p obj st c,
      (m, e) = (SearchQuery, SearchStatus) \/ (m, e) = (VideoEditTask, VideoStatus) ->
      construct m now p = inr obj ->
      st ∈ enum_values e ->
      c = VNone \/ (exists t, c = VDatetime t) ->
      exists obj',
        construct m now (<["status" := VStr st]> (<["completed_at" := c]> p)) = inr obj' /\
        obj' !! "status" = Some (VStr st) /\
        obj' !! "completed_at" = Some c) /\
  ("completed_at" ∉ field_names SearchQueryCreate) /\
  ("completed_at" ∉ field_names VideoEditTaskCreate) /\
  ("completed_at" ∉ field_names VideoEditTaskUpdate) /\
  (forall now entity ps,
      update_all VideoEditTaskUpdate now entity ps !! "completed_at"
      = entity !! "completed_at").
Proof.
  split; [|split; [|split; [|split; [|split]]]].
  - intros m now p obj [-> | ->] Hobj Hp.
    + eapply (construct_default SearchQuery now p "completed_at");
        try reflexivity; assumption.
    + eapply (construct_default VideoEditTask now p "completed_at");
        try reflexivity; assumption.
  - intros m e now p obj st c Hm Hobj Hst Hc.
    assert (Hfacts : exists fs fc,
               m ∈ schemas /\ names_distinct m = true /\
               get_field m "status" = Some fs /\ strip_optional (ftyp fs) = TEnum e /\
               get_field m "completed_at" = Some fc /\
               fc = Fld "completed_at" (TOptional TDatetime) [Default VNone]).
    { destruct Hm as [[= -> ->] | [= -> ->]]; eexists; eexists;
        (split; [is_listed|]); repeat split; reflexivity. }
    destruct Hfacts as (fs & fc & Hin & Hnd & Hfs & Hty & Hfc & ->).
    assert (Hcc : check_value (Fld "completed_at" (TOptional TDatetime) [Default VNone]) c
                  = None).
    { destruct Hc as [-> | [t ->]]; reflexivity. }
    destruct (construct_override m now p "completed_at" _ c obj Hnd Hfc Hcc Hobj)
      as (obj1 & Hobj1 & Hc1 & _).
    pose proof (check_enum_member m "status" fs e st Hin Hfs Hty Hst) as Hcs.
    destruct (construct_override m now _ "status" fs (VStr st) obj1 Hnd Hfs Hcs Hobj1)
      as (obj2 & Hobj2 & Hs2 & Hframe).
    exists obj2. split; [exact Hobj2|]. split; [exact Hs2|].
    rewrite (Hframe "completed_at" _ Hfc); [exact Hc1 | discriminate | discriminate].
  - intros Hin. in_list Hin; discriminate Hin.
  - intros Hin. in_list Hin; discriminate Hin.
  - intros Hin. in_list Hin; discriminate Hin.
  - intros now entity ps. apply update_all_frame.
    intros Hin. in_list Hin; discriminate Hin.
Qed.

Lemma completed_at_unconstrained_witness :
  exists obj',
    construct SearchQuery wall_clock
      (<["status" := VStr "in_progress"]> (<["completed_at" := VDatetime 9]> (search [])))
    = inr obj' /\
    obj' !! "status" = Some (VStr "in_progress") /\
    obj' !! "completed_at" = Some (VDatetime 9).
Proof.
  destruct completed_at_unconstrained as (_ & H & _).
  apply (H SearchQuery SearchStatus wall_clock (search [])
           (validate_fields wall_clock 0 (mfields SearchQuery) (search [])).2
           "in_progress" (VDatetime 9)).
  - left. reflexivity.
  - reflexivity.
  - is_listed.
  - right. exists 9%Z. reflexivity.
Defined.

(** ** Records the lifecycle reaches *)

Lemma create_from_inv shape entity now (keys p r : gmap string value) :
  table shape = false ->
  create_from shape entity now keys p = inr r ->
  exists s, construct shape now p = inr s /\
            init entity now (apply_update s keys (foreign_key_names entity)) = inr r.
Proof.
  intros Ht. unfold create_from, init at 1. rewrite Ht.
  destruct (construct shape now p) as [errs|s]; [discriminate|]. eauto.
Qed.

(** An attribute that the Create shape does not declare and that is no
    foreign key holds the entity's default in the created record. *)
Lemma create_from_default shape entity now (keys p r : gmap string value) name f d :
  table shape = false -> table entity = true -> names_distinct entity = true ->
  get_field entity name = Some f -> field_default f = DefaultValue d ->
  name ∉ field_names shape -> name ∉ foreign_key_names entity ->
  create_from shape entity now keys p = inr r ->
  r !! name = Some d.
Proof.
  intros Hts Hte Hnd Hf Hd Hshape Hfk Hc.
  apply create_from_inv in Hc as (s & Hs & Hr); [|exact Hts].
  assert (Hp : apply_update s keys (foreign_key_names entity) !! name = None).
  { rewrite apply_update_untouched by exact Hfk.
    apply (construct_undeclared shape now p s name Hs Hshape). }
  destruct (init_table_default entity now _ Hte name f d Hnd Hf Hd Hp)
    as (obj & Hobj & Hlook).
  rewrite Hr in Hobj. injection Hobj as <-. exact Hlook.
Qed.




(** ** The status of an edit task *)

Lemma type_error_enum_inv e v :
  type_error (TEnum e) v = None -> exists s, v = VStr s /\ s ∈ enum_values e.
Proof.
  destruct v; simpl; try discriminate.
  destruct (existsb (String.eqb s) (enum_values e)) eqn:E; [|discriminate].
  intros _. exists s. split; [reflexivity|]. apply existsb_eqb_elem. exact E.
Qed.

Lemma check_value_type_ok f v : check_value f v = None -> type_error (ftyp f) v = None.
Proof.
  unfold check_value, first_error.
  destruct (type_error (ftyp f) v); [discriminate|reflexivity].
Qed.

Lemma optional_status_checked (p u : gmap string value) now :
  construct VideoEditTaskUpdate now p = inr u ->
  forall v, p !! "status" = Some v ->
  v = VNone \/ exists s, v = VStr s /\ s ∈ enum_values VideoStatus.
Proof.
  intros Hu v Hp.
  pose (f := Fld "status" (TOptional (TEnum VideoStatus)) [Default VNone]).
  assert (Hf : f ∈ mfields VideoEditTaskUpdate) by is_listed.
  assert (Hok : field_error f (p !! fname f) = None).
  { apply (construct_succeeds VideoEditTaskUpdate now p); eauto. }
  change (fname f) with "status" in Hok. rewrite Hp in Hok.
  simpl in Hok. apply check_value_type_ok in Hok.
  destruct v; try (simpl in Hok; discriminate Hok); [left; reflexivity|].
  right. apply (type_error_enum_inv VideoStatus (VStr s)) in Hok as (s' & [= <-] & Hs').
  eauto.
Qed.

Lemma status_reachable r :
  reachable VideoEditTask r ->
  r !! "status" = Some VNone \/
  exists s, r !! "status" = Some (VStr s) /\ s ∈ enum_values VideoStatus.
Proof.
  intros Hreach.
  induction Hreach as [shape now keys p r Hshape Hc | shape now r p r' Hshape Hreach IH Hupd].
  - in_list Hshape; try discriminate Hshape; injection Hshape as <-.
    right. exists "uploaded". split; [|is_listed].
    apply (create_from_default VideoEditTaskCreate VideoEditTask now keys p r
             "status" (Fld "status" (TEnum VideoStatus) [Default (VStr "uploaded")])
             (VStr "uploaded")); try reflexivity; try exact Hc;
      intros Hin; in_list Hin; discriminate Hin.
  - in_list Hshape; try discriminate Hshape; injection Hshape as <-.
    destruct (p !! "status") as [v|] eqn:Hp.
    + rewrite (update_set VideoEditTaskUpdate now r p r' Hupd "status" v eq_refl)
        by (is_listed || exact Hp).
      unfold update in Hupd.
      destruct (construct VideoEditTaskUpdate now p) as [|u] eqn:Hu; [discriminate|].
      destruct (optional_status_checked p u now Hu v Hp) as [-> | (s & -> & Hs)]; eauto.
    + rewrite (update_unset VideoEditTaskUpdate now r p r' Hupd "status" Hp). exact IH.
Qed.

(** C9, as stated, fails: the constructor of the table class does not
    check the status it is given and builds a task in status
    ["completed"]; and an update that sets the status to [None], which
    the optional attribute of [VideoEditTaskUpdate] admits, leaves a
    reachable task without status. *)
Lemma status_outside_video_status :
  (exists task,
      init VideoEditTask wall_clock (<["status" := VStr "completed"]> (edit_task "trim"))
      = inr task /\
      task !! "status" = Some (VStr "completed")) /\
  (exists r r',
      reachable VideoEditTask r /\
      update VideoEditTaskUpdate wall_clock r (payload [("status", VNone)]) = inr r' /\
      r' !! "status" = Some VNone).
Proof.
  split.
  - eexists. split; reflexivity.
  - eexists. eexists. split; [|split].
    + apply (reach_created VideoEditTask VideoEditTaskCreate wall_clock
               (payload [("project_id", VInt 1)])
               (payload [("edit_type", VStr "trim"); ("user_prompt", VStr "cut")]));
        [is_listed | reflexivity].
    + reflexivity.
    + reflexivity.
Qed.

(** C9, amended.  The status of a [VideoEditTask] is annotated with
    [VideoStatus], whose values are [uploaded], [processing], [ready] and
    [error], not with a task-specific enumeration.  Validation of a task
    holds one of these four and refuses [completed] and [failed], and so
    does the shape [VideoEditTaskUpdate], which also admits [None].  A
    task constructed without a status has status [uploaded], and so has
    every task created from a [VideoEditTaskCreate], which declares no
    status.  On the tasks the lifecycle reaches the status is one of the
    four values or [None].  The constructor of the table class stores the
    status it is given. *)
Theorem video_task_status_declared :
  get_field VideoEditTask "status"
  = Some (Fld "status" (TEnum VideoStatus) [Default (VStr "uploaded")]) /\
  enum_values VideoStatus = ["uploaded"; "processing"; "ready"; "error"] /\
  (forall now p obj,
      model_validate VideoEditTask now p = inr obj ->
      exists s, obj !! "status" = Some (VStr s) /\
                s ∈ ["uploaded"; "processing"; "ready"; "error"] /\
                s <> "completed" /\ s <> "failed") /\
  (forall m now p s,
      m = VideoEditTask \/ m = VideoEditTaskUpdate ->
      p !! "status" = Some (VStr s) -> s = "completed" \/ s = "failed" ->
      exists errs, model_validate m now p = inl errs /\
                   Err "status" (NotInEnum VideoStatus) ∈ errs) /\
  (forall now p,
      init VideoEditTaskUpdate now p = model_validate VideoEditTaskUpdate now p) /\
  (forall now (p : gmap string value),
      p !! "status" = None ->
      exists obj, init VideoEditTask now p = inr obj /\
                  obj !! "status" = Some (VStr "uploaded")) /\
  ("status" ∉ field_names VideoEditTaskCreate) /\
  (forall now keys p r,
      create_from VideoEditTaskCreate VideoEditTask now keys p = inr r ->
      r !! "status" = Some (VStr "uploaded")) /\
  (exists r,
      create_from VideoEditTaskCreate VideoEditTask wall_clock
        (payload [("project_id", VInt 1)])
        (payload [("edit_type", VStr "trim"); ("user_prompt", VStr "cut")]) = inr r) /\
  (forall now p u,
      model_validate VideoEditTaskUpdate now p = inr u ->
      u !! "status" = Some VNone \/
      exists s, u !! "status" = Some (VStr s) /\
                s ∈ ["uploaded"; "processing"; "ready"; "error"]) /\
  (forall r,
      reachable VideoEditTask r ->
      r !! "status" = Some VNone \/
      exists s, r !! "status" = Some (VStr s) /\
                s ∈ ["uploaded"; "processing"; "ready"; "error"]) /\
  (forall now (p : gmap string value) v,
      p !! "status" = Some v ->
      exists obj, init VideoEditTask now p = inr obj /\ obj !! "status" = Some v).
Proof.
  unfold model_validate.
  split; [reflexivity|]. split; [reflexivity|].
  split; [|split; [|split; [|split; [|split; [|split; [|split; [|split; [|split]]]]]]]].
  - intros now p obj Hobj.
    pose (f := Fld "status" (TEnum VideoStatus) [Default (VStr "uploaded")]).
    assert (Hf : f ∈ mfields VideoEditTask) by is_listed.
    destruct (construct_stored VideoEditTask now p obj f eq_refl Hobj Hf) as [tk Htk].
    assert (Hok : field_error f (p !! fname f) = None).
    { apply (construct_succeeds VideoEditTask now p); eauto. }
    change (fname f) with "status" in *.
    assert (Hs : exists s, obj !! "status" = Some (VStr s) /\ s ∈ enum_values VideoStatus).
    { destruct (p !! "status") as [v|].
      - simpl in Hok, Htk. apply check_value_type_ok in Hok.
        apply type_error_enum_inv in Hok as (s & -> & Hs). eauto.
      - exists "uploaded". split; [exact Htk | is_listed]. }
    destruct Hs as (s & Hs & Hin). exists s. split; [exact Hs|].
    split; [exact Hin|].
    in_list Hin; subst s; split; discriminate.
  - intros m now p s [-> | ->] Hp Hs;
      (eapply construct_rejects; [reflexivity | exact Hp |]);
      destruct Hs as [-> | ->]; reflexivity.
  - intros now p. reflexivity.
  - intros now p Hp.
    apply (init_table_default VideoEditTask now p eq_refl "status" _ (VStr "uploaded")
             eq_refl eq_refl eq_refl Hp).
  - intros Hin. in_list Hin; discriminate Hin.
  - intros now keys p r Hc.
    apply (create_from_default VideoEditTaskCreate VideoEditTask now keys p r
             "status" (Fld "status" (TEnum VideoStatus) [Default (VStr "uploaded")])
             (VStr "uploaded")); try reflexivity; try exact Hc;
      intros Hin; in_list Hin; discriminate Hin.
  - eexists. reflexivity.
  - intros now p u Hu.
    pose (f := Fld "status" (TOptional (TEnum VideoStatus)) [Default VNone]).
    assert (Hf : f ∈ mfields VideoEditTaskUpdate) by is_listed.
    destruct (construct_stored VideoEditTaskUpdate now p u f eq_refl Hu Hf) as [tk Htk].
    change (fname f) with "status" in *.
    destruct (p !! "status") as [v|] eqn:Hp; [|left; exact Htk].
    simpl in Htk.
    destruct (optional_status_checked p u now Hu v Hp) as [-> | (s & -> & Hs)]; eauto.
  - exact status_reachable.
  - intros now p v Hp.
    apply (init_table_keeps VideoEditTask now p eq_refl "status" _ v eq_refl eq_refl Hp).
Qed.

Lemma video_task_status_declared_witness :
  (exists obj,
      init VideoEditTask wall_clock (edit_task "trim") = inr obj /\
      obj !! "status" = Some (VStr "uploaded")) /\
  (exists errs,
      model_validate VideoEditTask wall_clock
        (<["status" := VStr "completed"]> (edit_task "trim")) = inl errs /\
      Err "status" (NotInEnum VideoStatus) ∈ errs).
Proof.
  destruct video_task_status_declared as (_ & _ & _ & Hbad & _ & Hfresh & _).
  split.
  - apply Hfresh. reflexivity.
  - apply (Hbad VideoEditTask wall_clock _ "completed");
      [left; reflexivity | reflexivity | left; reflexivity].
Defined.

(** ** Attributes without a declared bound *)

Lemma update_accepts shape now entity (p : gmap string value) name f v :
  names_distinct shape = true -> get_field shape name = Some f ->
  p !! name = Some v -> check_value f v = None ->
  others_valid shape name p = true ->
  exists e', update shape now entity p = inr e' /\ e' !! name = Some v.
Proof.
  intros Hnd Hf Hp Hv Ho.
  destruct (construct_accepts shape now p name f Hnd Hf v Hp Hv Ho) as (u & Hu & _).
  assert (Hupd : update shape now entity p
                 = inr (apply_update entity u (fields_set shape p))).
  { unfold update. rewrite Hu. reflexivity. }
  eexists. split; [exact Hupd|].
  eapply update_set; [exact Hupd | exact Hnd | | exact Hp].
  destruct (get_field_elem _ _ _ Hf) as [Hin <-].
  apply list_elem_of_fmap_2. exact Hin.
Qed.

(** C10, as stated, fails for the decimals that are not finite: the
    shape [VideoEditTaskUpdate] refuses a [progress_percentage] of [NaN]
    or [Infinity]. *)
Lemma update_shape_refuses_non_finite :
  init VideoEditTaskUpdate wall_clock (payload [("progress_percentage", VDecimalNaN)])
  = inl [Err "progress_percentage" NotFinite] /\
  init VideoEditTaskUpdate wall_clock
    (payload [("progress_percentage", VDecimalInfinity false)])
  = inl [Err "progress_percentage" NotFinite].
Proof. split; reflexivity. Qed.

(** C10, amended.  [storage_quota], [storage_used], [max_results] and
    [max_tokens] take every integer, and [progress_percentage] every
    finite decimal, negative or above 100 included: a payload that is
    otherwise valid passes validation with the value stored as given, in
    the entity and in the Create and Update shapes that declare the
    attribute, and applying such an Update shape stores the value in the
    entity.  A decimal that is not finite is refused by validation and by
    the Update shape.  The constructors of the table classes store
    whatever value they are given. *)
Theorem numeric_fields_unbounded :
  (forall m name n now p,
      (m, name) ∈ [(User, "storage_quota"); (User, "storage_used");
                   (SearchQuery, "max_results"); (ChatSession, "max_tokens");
                   (UserCreate, "storage_quota"); (SearchQueryCreate, "max_results");
                   (ChatSessionCreate, "max_tokens"); (UserUpdate, "storage_quota");
                   (ChatSessionUpdate, "max_tokens")] ->
      p !! name = Some (VInt n) -> others_valid m name p = true ->
      exists obj, model_validate m now p = inr obj /\ obj !! name = Some (VInt n)) /\
  (forall m c e now p,
      m = VideoEditTask \/ m = VideoEditTaskUpdate ->
      p !! "progress_percentage" = Some (VDecimal c e) ->
      others_valid m "progress_percentage" p = true ->
      exists obj, model_validate m now p = inr obj /\
                  obj !! "progress_percentage" = Some (VDecimal c e)) /\
  (forall shape name n now entity p,
      (shape, name) ∈ [(UserUpdate, "storage_quota"); (ChatSessionUpdate, "max_tokens")] ->
      p !! name = Some (VInt n) -> others_valid shape name p = true ->
      exists e', update shape now entity p = inr e' /\ e' !! name = Some (VInt n)) /\
  (forall c e now entity p,
      p !! "progress_percentage" = Some (VDecimal c e) ->
      others_valid VideoEditTaskUpdate "progress_percentage" p = true ->
      exists e', update VideoEditTaskUpdate now entity p = inr e' /\
                 e' !! "progress_percentage" = Some (VDecimal c e)) /\
  (forall m now p v,
      m = VideoEditTask \/ m = VideoEditTaskUpdate ->
      v = VDecimalNaN \/ (exists negative, v = VDecimalInfinity negative) ->
      p !! "progress_percentage" = Some v ->
      exists errs, model_validate m now p = inl errs /\
                   Err "progress_percentage" NotFinite ∈ errs) /\
  (forall m now p,
      m ∈ [UserCreate; SearchQueryCreate; ChatSessionCreate; UserUpdate;
           ChatSessionUpdate; VideoEditTaskUpdate] ->
      init m now p = model_validate m now p) /\
  (forall m name now (p : gmap string value) v,
      (m, name) ∈ [(User, "storage_quota"); (User, "storage_used");
                   (SearchQuery, "max_results"); (ChatSession, "max_tokens");
                   (VideoEditTask, "progress_percentage")] ->
      p !! name = Some v ->
      exists obj, init m now p = inr obj /\ obj !! name = Some v).
Proof.
  unfold model_validate.
  split; [|split; [|split; [|split; [|split; [|split]]]]].
  - intros m name n now p Hsite Hp Ho.
    in_list Hsite; injection Hsite as <- <-;
      (eapply construct_accepts; [reflexivity|reflexivity|exact Hp|reflexivity|exact Ho]).
  - intros m c e now p [-> | ->] Hp Ho;
      (eapply construct_accepts; [reflexivity|reflexivity|exact Hp|reflexivity|exact Ho]).
  - intros shape name n now entity p Hsite Hp Ho.
    in_list Hsite; injection Hsite as <- <-;
      (eapply update_accepts; [reflexivity|reflexivity|exact Hp|reflexivity|exact Ho]).
  - intros c e now entity p Hp Ho.
    eapply update_accepts; [reflexivity|reflexivity|exact Hp|reflexivity|exact Ho].
  - intros m now p v [-> | ->] Hv Hp;
      (eapply construct_rejects; [reflexivity | exact Hp |]);
      destruct Hv as [-> | [b ->]]; reflexivity.
  - intros m now p Hm. in_list Hm; subst m; reflexivity.
  - intros m name now p v Hsite Hp.
    in_list Hsite; injection Hsite as <- <-.
    + apply (init_table_keeps User now p eq_refl "storage_quota" _ v eq_refl eq_refl Hp).
    + apply (init_table_keeps User now p eq_refl "storage_used" _ v eq_refl eq_refl Hp).
    + apply (init_table_keeps SearchQuery now p eq_refl "max_results" _ v
               eq_refl eq_refl Hp).
    + apply (init_table_keeps ChatSession now p eq_refl "max_tokens" _ v
               eq_refl eq_refl Hp).
    + apply (init_table_keeps VideoEditTask now p eq_refl "progress_percentage" _ v
               eq_refl eq_refl Hp).
Qed.

Lemma numeric_fields_unbounded_witness :
  (exists obj,
      model_validate User wall_clock (<["storage_used" := VInt (-5)]> alice) = inr obj /\
      obj !! "storage_used" = Some (VInt (-5))) /\
  (exists obj,
      model_validate VideoEditTask wall_clock
        (<["progress_percentage" := VDecimal 2505 (-1)]> (edit_task "trim")) = inr obj /\
      obj !! "progress_percentage" = Some (VDecimal 2505 (-1))) /\
  (exists e',
      update VideoEditTaskUpdate wall_clock (edit_task "trim")
        (payload [("progress_percentage", VDecimal (-1) 0)]) = inr e' /\
      e' !! "progress_percentage" = Some (VDecimal (-1) 0)) /\
  (exists errs,
      model_validate VideoEditTask wall_clock
        (<["progress_percentage" := VDecimalNaN]> (edit_task "trim")) = inl errs /\
      Err "progress_percentage" NotFinite ∈ errs).
Proof.
  destruct numeric_fields_unbounded as (H1 & H2 & _ & H4 & H5 & _).
  split; [|split; [|split]].
  - apply (H1 User "storage_used" (-5)%Z); [is_listed | reflexivity | reflexivity].
  - apply (H2 VideoEditTask 2505%Z (-1)%Z); [left; reflexivity | reflexivity | reflexivity].
  - apply (H4 (-1)%Z 0%Z); reflexivity.
  - apply (H5 VideoEditTask wall_clock _ VDecimalNaN);
      [left; reflexivity | left; reflexivity | reflexivity].
Defined.

(** * Further properties of the declarations *)

(** ** Required attributes *)

Lemma empty_payload_errors fs :
  omap (error_at ∅) fs
  = map (fun n => Err n Missing) (map fname (List.filter is_required fs)).
Proof.
  induction fs as [|f fs IH]; simpl; [reflexivity|].
  unfold error_at at 1, field_error, is_required. rewrite lookup_empty.
  destruct (field_default f); simpl; [f_equal; exact IH | exact IH | exact IH].
Qed.

(** X3.  An attribute declared without default is required.  Validation
    refuses a payload that omits it, with a missing-value error at that
    attribute, and so does the constructor of a class that is not a
    table; the constructor of a table class builds the object and leaves
    the attribute unset.  Validation refuses the empty payload with
    exactly these errors and accepts it for the classes that require
    nothing: the four Update shapes and [ChatSessionCreate].  The
    required attributes of the nine entities are their foreign keys and
    the attributes listed below, never [id] or a timestamp. *)
Theorem required_attributes :
  (forall m now (p : gmap string value) f,
      f ∈ mfields m -> is_required f = true -> p !! fname f = None ->
      exists errs, model_validate m now p = inl errs /\ Err (fname f) Missing ∈ errs) /\
  (forall m now (p : gmap string value),
      table m = false -> init m now p = model_validate m now p) /\
  (forall m now (p : gmap string value) f,
      table m = true -> names_distinct m = true ->
      f ∈ mfields m -> is_required f = true -> p !! fname f = None ->
      exists obj, init m now p = inr obj /\ obj !! fname f = None) /\
  (forall m now errs,
      model_validate m now ∅ = inl errs ->
      errs = map (fun n => Err n Missing) (required_fields m)) /\
  (forall m now,
      required_fields m = [] <-> exists obj, model_validate m now ∅ = inr obj) /\
  map required_fields entities
  = [ ["username"; "email"; "full_name"];
      ["filename"; "original_filename"; "file_path"; "file_size"; "mime_type";
       "file_hash"; "user_id"];
      ["user_id"];
      ["session_id"; "role"; "content"];
      ["message_id"; "file_id"];
      ["user_id"; "query"];
      ["user_id"; "title"];
      ["project_id"; "filename"; "original_filename"; "file_path"; "file_size"];
      ["project_id"; "edit_type"; "user_prompt"] ] /\
  map mname (List.filter (fun m => match required_fields m with [] => true | _ => false end)
               schemas)
  = ["UserUpdate"; "ChatSessionCreate"; "ChatSessionUpdate"; "VideoProjectUpdate";
     "VideoEditTaskUpdate"].
Proof.
  unfold model_validate.
  split; [|split; [|split; [|split; [|split; [|split]]]]].
  - intros m now p f Hf Hreq Hp. apply construct_fails; [exact Hf|].
    unfold field_error. rewrite Hp. unfold is_required in Hreq.
    destruct (field_default f); [reflexivity | discriminate | discriminate].
  - intros m now p Ht. unfold init. rewrite Ht. reflexivity.
  - intros m now p f Ht Hnd Hf Hreq Hp.
    rewrite (init_table m now p Ht). eexists. split; [reflexivity|].
    apply bool_decide_eq_true in Hnd.
    rewrite (table_fields_lookup now p (mfields m) f 0 Hnd Hf), Hp.
    unfold is_required in Hreq.
    destruct (field_default f); [reflexivity | discriminate | discriminate].
  - intros m now errs. rewrite construct_unfold, empty_payload_errors.
    fold (required_fields m).
    destruct (required_fields m); simpl; [discriminate|].
    intros [= <-]. reflexivity.
  - intros m now. rewrite construct_unfold, empty_payload_errors.
    fold (required_fields m).
    destruct (required_fields m); simpl; split; eauto; try discriminate.
    intros [obj Hobj]. discriminate.
  - reflexivity.
  - reflexivity.
Qed.

Lemma required_attributes_witness :
  (exists errs,
      init ChatMessageCreate wall_clock (payload [("content", VStr "hi")]) = inl errs /\
      Err "role" Missing ∈ errs) /\
  (exists obj,
      init ChatMessage wall_clock (payload [("content", VStr "hi")]) = inr obj /\
      obj !! "role" = None).
Proof.
  destruct required_attributes as (H & Hshape & Htable & _).
  split.
  - rewrite Hshape by reflexivity.
    apply (H ChatMessageCreate wall_clock (payload [("content", VStr "hi")])
             (Fld "role" (TEnum ChatMessageRole) [])); [is_listed | reflexivity | reflexivity].
  - apply (Htable ChatMessage wall_clock (payload [("content", VStr "hi")])
             (Fld "role" (TEnum ChatMessageRole) []));
      [reflexivity | reflexivity | is_listed | reflexivity | reflexivity].
Defined.

(** ** Validating a validated object again *)

Lemma type_error_datetime t a b :
  type_error t (VDatetime a) = type_error t (VDatetime b).
Proof. induction t; simpl; auto. Qed.

Lemma check_value_datetime f a b :
  check_value f (VDatetime a) = check_value f (VDatetime b).
Proof.
  unfold check_value, check_ge, check_max_length, check_regex.
  rewrite (type_error_datetime (ftyp f) a b).
  destruct (kw_ge (kwargs f)), (kw_max_length (kwargs f)), (kw_regex (kwargs f));
    reflexivity.
Qed.

Lemma declared_defaults_valid m f :
  m ∈ schemas -> f ∈ mfields m ->
  match field_default f with
  | DefaultValue d => check_value f d = None
  | DefaultUtcnow => forall t, check_value f (VDatetime t) = None
  | Required => True
  end.
Proof.
  intros Hm Hf.
  assert (H : forallb (fun m =>
                forallb (fun f =>
                  match field_default f with
                  | DefaultValue d => no_error (check_value f d)
                  | DefaultUtcnow => no_error (check_value f (VDatetime 0))
                  | Required => true
                  end) (mfields m)) schemas = true) by reflexivity.
  rewrite forallb_forall in H. specialize (H m).
  rewrite <- list_elem_of_In in H. specialize (H Hm).
  rewrite forallb_forall in H. specialize (H f).
  rewrite <- list_elem_of_In in H. specialize (H Hf).
  destruct (field_default f) as [|d|]; [exact I| |].
  - destruct (check_value f d); [discriminate|reflexivity].
  - intros t. rewrite (check_value_datetime f t 0).
    destruct (check_value f (VDatetime 0)); [discriminate|reflexivity].
Qed.

(** X4.  Validation is idempotent on its results: every declared default
    and every factory value passes the checks of its own attribute, so an
    object obtained from any class is accepted again by that class, at any
    later time, and comes back unchanged. *)
Theorem revalidation_returns_object m now later (p obj : gmap string value) :
  m ∈ schemas ->
  construct m now p = inr obj ->
  construct m later obj = inr obj.
Proof.
  intros Hm Hobj.
  pose proof (schemas_names_distinct m Hm) as Hnd.
  assert (Hok : forall f, f ∈ mfields m -> field_error f (p !! fname f) = None).
  { apply (construct_succeeds m now). eauto. }
  assert (Hval : forall f, f ∈ mfields m ->
            exists v, obj !! fname f = Some v /\ check_value f v = None).
  { intros f Hf.
    destruct (construct_stored m now p obj f Hnd Hobj Hf) as [tk Htk].
    exists (field_value now tk f (p !! fname f)). split; [exact Htk|].
    specialize (Hok f Hf). pose proof (declared_defaults_valid m f Hm Hf) as Hd.
    unfold field_value, field_error in *.
    destruct (p !! fname f); [exact Hok|].
    destruct (field_default f); [discriminate | exact Hd | apply Hd]. }
  assert (Hagain : exists obj', construct m later obj = inr obj').
  { apply construct_succeeds. intros f Hf.
    destruct (Hval f Hf) as (v & Hv & Hc). unfold field_error. rewrite Hv. exact Hc. }
  destruct Hagain as [obj' Hobj']. rewrite Hobj'. f_equal.
  apply map_eq. intros name.
  destruct (decide (name ∈ field_names m)) as [Hin|Hout].
  - apply list_elem_of_fmap in Hin as (f & -> & Hf).
    destruct (construct_stored m later obj obj' f Hnd Hobj' Hf) as [tk Htk].
    destruct (Hval f Hf) as (v & Hv & _).
    rewrite Htk, Hv. reflexivity.
  - rewrite (construct_undeclared m later obj obj' name Hobj' Hout).
    rewrite (construct_undeclared m now p obj name Hobj Hout). reflexivity.
Qed.

Lemma revalidation_returns_object_witness :
  construct SearchQuery (fun n => 5%Z)
    (validate_fields wall_clock 0 (mfields SearchQuery) (search [])).2
  = inr (validate_fields wall_clock 0 (mfields SearchQuery) (search [])).2.
Proof.
  apply (revalidation_returns_object SearchQuery wall_clock (fun n => 5%Z) (search []));
    [is_listed | reflexivity].
Defined.

(** ** The readings of the clock *)

Lemma validate_field_tick now tick f (p : gmap string value) :
  (validate_field now tick f (p !! fname f)).1
  = (tick + (if is_factory f && omitted p (fname f) then 1 else 0))%nat.
Proof.
  unfold validate_field, is_factory, omitted.
  destruct (p !! fname f); simpl.
  - rewrite andb_false_r. lia.
  - destruct (field_default f); simpl; lia.
Qed.

Lemma validate_fields_stored_at now (p : gmap string value) fs f : forall tick,
  NoDup (map fname fs) -> f ∈ fs ->
  field_error f (p !! fname f) = None ->
  (validate_fields now tick fs p).2 !! fname f
  = Some (field_value now (tick + factory_calls p fs (fname f)) f (p !! fname f)).
Proof.
  induction fs as [|g fs IH]; intros tick Hnd Hin Hok; [inversion Hin|].
  simpl in Hnd. apply NoDup_cons in Hnd as [Hfresh Hnd]. simpl.
  pose proof (validate_field_tick now tick g p) as Htick.
  destruct (validate_field now tick g (p !! fname g)) as [tick1 r] eqn:E1.
  simpl in Htick.
  pose proof (validate_fields_undeclared now p fs (fname g) tick1 Hfresh) as Hund.
  specialize (IH tick1 Hnd).
  destruct (validate_fields now tick1 fs p) as [[tick2 errs] obj]; simpl in *.
  apply elem_of_cons in Hin as [->|Hin].
  - rewrite String.eqb_refl, Nat.add_0_r.
    destruct r as [k|v].
    + apply validate_field_inl in E1. congruence.
    + apply validate_field_inr in E1 as (_ & -> & _). simpl. apply lookup_insert_eq.
  - assert (Hne : fname g <> fname f).
    { intros Heq. apply Hfresh. rewrite Heq. apply list_elem_of_fmap_2. exact Hin. }
    apply String.eqb_neq in Hne as Hneb. rewrite Hneb.
    rewrite Nat.add_assoc, <- Htick.
    destruct r; simpl; [|rewrite lookup_insert_ne by assumption]; apply IH; assumption.
Qed.

Lemma construct_stored_at m now (p obj : gmap string value) name f :
  names_distinct m = true -> get_field m name = Some f ->
  construct m now p = inr obj ->
  obj !! name
  = Some (field_value now (factory_calls p (mfields m) name) f (p !! name)).
Proof.
  intros Hnd Hf Hobj.
  destruct (get_field_elem _ _ _ Hf) as [Hin <-].
  assert (Hok : field_error f (p !! fname f) = None).
  { apply (construct_succeeds m now p); eauto. }
  rewrite construct_unfold in Hobj.
  destruct (omap (error_at p) (mfields m)); [|discriminate].
  injection Hobj as <-.
  apply bool_decide_eq_true in Hnd.
  apply (validate_fields_stored_at now p (mfields m) f 0 Hnd Hin Hok).
Qed.

Ltac rewrite_stored name f Hobj :=
  match type of Hobj with
  | construct ?m ?now ?p = inr ?obj =>
      rewrite (construct_stored_at m now p obj name f eq_refl eq_refl Hobj)
  end.

(** X5.  The two timestamps of a new entity are two separate readings of
    the clock: when the payload supplies neither, [created_at] holds the
    first reading and [updated_at] the second, so they need not be equal;
    when the payload supplies [created_at], that value is kept and
    [updated_at] holds the first reading.  [ChatMessage] and
    [ChatFileAttachment] take one reading, for [created_at]. *)
Theorem timestamps_are_successive_readings :
  (forall m now (p obj : gmap string value),
      m ∈ entities -> construct m now p = inr obj ->
      p !! "created_at" = None ->
      obj !! "created_at" = Some (VDatetime (now 0%nat))) /\
  (forall m now (p obj : gmap string value),
      m ∈ entities -> m <> ChatMessage -> m <> ChatFileAttachment ->
      construct m now p = inr obj ->
      p !! "created_at" = None -> p !! "updated_at" = None ->
      obj !! "updated_at" = Some (VDatetime (now 1%nat))) /\
  (forall m now (p obj : gmap string value) t,
      m ∈ entities -> m <> ChatMessage -> m <> ChatFileAttachment ->
      construct m now p = inr obj ->
      p !! "created_at" = Some (VDatetime t) -> p !! "updated_at" = None ->
      obj !! "created_at" = Some (VDatetime t) /\
      obj !! "updated_at" = Some (VDatetime (now 0%nat))).
Proof.
  split; [|split].
  - intros m now p obj Hm Hobj Hc.
    in_list Hm; subst m;
      rewrite_stored "created_at" created_at_field Hobj;
      rewrite Hc; reflexivity.
  - intros m now p obj Hm H1 H2 Hobj Hc Hu.
    in_list Hm; subst m; try contradiction;
      rewrite_stored "updated_at" updated_at_field Hobj;
      rewrite Hu; simpl; unfold omitted; rewrite Hc; reflexivity.
  - intros m now p obj t Hm H1 H2 Hobj Hc Hu.
    in_list Hm; subst m; try contradiction;
      (split;
       [ rewrite_stored "created_at" created_at_field Hobj;
         rewrite Hc; reflexivity
       | rewrite_stored "updated_at" updated_at_field Hobj;
         rewrite Hu; simpl; unfold omitted; rewrite Hc; reflexivity ]).
Qed.

Lemma timestamps_are_successive_readings_witness :
  (validate_fields wall_clock 0 (mfields User) alice).2 !! "created_at"
  = Some (VDatetime 1700000000000000) /\
  (validate_fields wall_clock 0 (mfields User) alice).2 !! "updated_at"
  = Some (VDatetime 1700000000000001).
Proof.
  destruct timestamps_are_successive_readings as (H1 & H2 & _).
  split.
  - apply (H1 User wall_clock alice); [is_listed | reflexivity | reflexivity].
  - apply (H2 User wall_clock alice);
      [is_listed | discriminate | discriminate | reflexivity | reflexivity | reflexivity].
Defined.

(** ** Length bounds and lower bounds, everywhere *)

Lemma schema_fact (P : field -> bool) m f :
  forallb (fun m => forallb P (mfields m)) schemas = true ->
  m ∈ schemas -> f ∈ mfields m -> P f = true.
Proof.
  intros H Hm Hf.
  rewrite forallb_forall in H. specialize (H m).
  rewrite <- list_elem_of_In in H. specialize (H Hm).
  rewrite forallb_forall in H. apply H, list_elem_of_In, Hf.
Qed.

Lemma type_error_strip t v :
  v <> VNone -> type_error t v = type_error (strip_optional t) v.
Proof. intros Hv. destruct t; try reflexivity. destruct v; try reflexivity. contradiction. Qed.

Lemma check_string f n s :
  strip_optional (ftyp f) = TStr -> kw_max_length (kwargs f) = Some n ->
  kw_regex (kwargs f) = None ->
  check_value f (VStr s)
  = if (Z.of_nat (String.length s) <=? n)%Z then None else Some (TooLong n).
Proof.
  intros Ht Hn Hr. unfold check_value, check_ge, check_max_length, check_regex.
  rewrite (type_error_strip (ftyp f) (VStr s)) by discriminate.
  rewrite Ht, Hn. simpl.
  destruct (kw_ge (kwargs f)); simpl;
    destruct (Z.of_nat (String.length s) <=? n)%Z; reflexivity.
Qed.

(** X6.  No string attribute of the file is unbounded: every attribute
    annotated [str] or [Optional[str]], in every class, declares a
    positive [max_length]; apart from [User.email], which also declares a
    pattern, such an attribute accepts a string exactly when its length
    is within the bound, the empty string included, and reports a longer
    one as too long. *)
Theorem string_attributes_bounded m f :
  m ∈ schemas -> f ∈ mfields m -> strip_optional (ftyp f) = TStr ->
  exists n,
    kw_max_length (kwargs f) = Some n /\ (0 < n)%Z /\
    ((m, fname f) <> (User, "email") ->
     forall s,
       (check_value f (VStr s) = None <-> (Z.of_nat (String.length s) <= n)%Z) /\
       ((n < Z.of_nat (String.length s))%Z -> check_value f (VStr s) = Some (TooLong n))).
Proof.
  intros Hm Hf Ht.
  pose proof (schema_fact
    (fun f => match strip_optional (ftyp f), kw_max_length (kwargs f) with
              | TStr, Some n => (0 <? n)%Z
              | TStr, None => false
              | _, _ => true
              end) m f eq_refl Hm Hf) as Hlen.
  simpl in Hlen. rewrite Ht in Hlen.
  destruct (kw_max_length (kwargs f)) as [n|] eqn:Hn; [|discriminate].
  exists n. split; [reflexivity|]. split; [apply Z.ltb_lt; exact Hlen|].
  intros Hne s.
  assert (Hr : kw_regex (kwargs f) = None).
  { destruct (kw_regex (kwargs f)) eqn:Hr; [|reflexivity]. exfalso. apply Hne.
    clear Hlen Hn Ht Hne.
    in_list Hm; subst m; in_list Hf; subst f; try discriminate Hr; reflexivity. }
  rewrite (check_string f n s Ht Hn Hr).
  destruct (Z.leb_spec (Z.of_nat (String.length s)) n) as [Hle|Hgt]; split.
  - split; [intros _; exact Hle | reflexivity].
  - intros Hlt. lia.
  - split; [discriminate | intros Hle; lia].
  - intros _. reflexivity.
Qed.

Lemma string_attributes_bounded_witness :
  exists n,
    kw_max_length [MaxLength 50; Unique] = Some n /\ (0 < n)%Z /\
    check_value (Fld "username" TStr [MaxLength 50; Unique]) (VStr "") = None.
Proof.
  destruct (string_attributes_bounded User (Fld "username" TStr [MaxLength 50; Unique]))
    as (n & Hn & Hpos & H); [is_listed | is_listed | reflexivity |].
  exists n. split; [exact Hn|]. split; [exact Hpos|].
  apply H; [discriminate | simpl; lia].
Defined.

(** X7.  Six attributes declare a lower bound, and the bound is 0 each
    time: the file sizes of [UploadedFile], [VideoFile] and
    [FileUploadRequest], the two token counts of [ChatMessage] and
    [SearchQuery.results_count].  Each accepts an integer exactly when it
    is not negative and reports a negative one as below the minimum; the
    token counts, being optional, also accept [None]. *)
Theorem lower_bounds_are_zero :
  (forall m f b,
      m ∈ schemas -> f ∈ mfields m -> kw_ge (kwargs f) = Some b ->
      b = 0%Z /\ strip_optional (ftyp f) = TInt /\
      forall n,
        (check_value f (VInt n) = None <-> (0 <= n)%Z) /\
        ((n < 0)%Z -> check_value f (VInt n) = Some (BelowMinimum 0))) /\
  flat_map (fun m => map (fun f => (mname m, fname f))
                       (List.filter (fun f => match kw_ge (kwargs f) with
                                              | Some _ => true
                                              | None => false
                                              end) (mfields m))) schemas
  = [("UploadedFile", "file_size"); ("ChatMessage", "input_tokens");
     ("ChatMessage", "output_tokens"); ("SearchQuery", "results_count");
     ("VideoFile", "file_size"); ("FileUploadRequest", "file_size")] /\
  (forall name,
      name = "input_tokens" \/ name = "output_tokens" ->
      accepts ChatMessage name VNone = true).
Proof.
  split; [|split; [reflexivity|]].
  - intros m f b Hm Hf Hb.
    pose proof (schema_fact
      (fun f => match kw_ge (kwargs f) with
                | Some b =>
                    (b =? 0)%Z &&
                    match strip_optional (ftyp f), kw_max_length (kwargs f),
                          kw_regex (kwargs f) with
                    | TInt, _, _ => true
                    | _, _, _ => false
                    end
                | None => true
                end) m f eq_refl Hm Hf) as H.
    simpl in H. rewrite Hb in H. apply andb_true_iff in H as [H0 Ht].
    apply Z.eqb_eq in H0 as ->.
    assert (Hty : strip_optional (ftyp f) = TInt).
    { destruct (strip_optional (ftyp f)); try discriminate Ht; reflexivity. }
    split; [reflexivity|]. split; [exact Hty|]. intros n.
    assert (Hc : check_value f (VInt n)
                 = if (0 <=? n)%Z then None else Some (BelowMinimum 0)).
    { unfold check_value, check_ge, check_max_length, check_regex.
      rewrite (type_error_strip (ftyp f) (VInt n)) by discriminate.
      rewrite Hty, Hb. simpl.
      destruct (0 <=? n)%Z; simpl;
        destruct (kw_max_length (kwargs f)), (kw_regex (kwargs f)); reflexivity. }
    rewrite Hc. destruct (Z.leb_spec 0 n) as [Hle|Hgt]; split.
    + split; [intros _; exact Hle | reflexivity].
    + intros Hlt. lia.
    + split; [discriminate | intros Hle; lia].
    + intros _. reflexivity.
  - intros name [-> | ->]; reflexivity.
Qed.

Lemma lower_bounds_are_zero_witness :
  check_value (Fld "results_count" TInt [Default (VInt 0); Ge 0]) (VInt (-3))
  = Some (BelowMinimum 0).
Proof.
  destruct lower_bounds_are_zero as (H & _).
  destruct (H SearchQuery (Fld "results_count" TInt [Default (VInt 0); Ge 0]) 0%Z)
    as (_ & _ & Hn); [is_listed | is_listed | reflexivity |].
  apply Hn. lia.
Defined.

(** ** Request shapes against their entities *)





(** X10.  In a Create shape every optional attribute has a default other
    than [None], and an explicit [None] in the payload is not replaced by
    that default: it is accepted and stored as [None].  The entity's
    attribute of the same name is not optional and refuses [None]. *)
Theorem explicit_none_bypasses_default c e f :
  (c, e) ∈ create_shapes -> f ∈ mfields c -> is_optional (ftyp f) = true ->
  (exists d, field_default f = DefaultValue d /\ d <> VNone) /\
  check_value f VNone = None /\
  (forall now (p obj : gmap string value),
      p !! fname f = Some VNone -> construct c now p = inr obj ->
      obj !! fname f = Some VNone) /\
  (forall g, get_field e (fname f) = Some g ->
             is_optional (ftyp g) = false /\ exists k, check_value g VNone = Some k).
Proof.
  intros Hce Hf Hopt.
  assert (Hnd : names_distinct c = true).
  { clear Hf Hopt. in_list Hce; injection Hce as <- <-; reflexivity. }
  split; [|split; [|split]].
  - in_list Hce; injection Hce as <- <-; in_list Hf; subst f;
      try discriminate Hopt; eexists; (split; [reflexivity|discriminate]).
  - in_list Hce; injection Hce as <- <-; in_list Hf; subst f;
      try discriminate Hopt; reflexivity.
  - intros now p obj Hp Hobj.
    destruct (construct_stored c now p obj f Hnd Hobj Hf) as [tk Htk].
    rewrite Hp in Htk. exact Htk.
  - intros g Hg.
    in_list Hce; injection Hce as <- <-; in_list Hf; subst f;
      try discriminate Hopt; simpl in Hg; try discriminate Hg; injection Hg as <-;
      (split; [reflexivity | eexists; reflexivity]).
Qed.

Lemma explicit_none_bypasses_default_witness :
  (validate_fields wall_clock 0 (mfields UserCreate)
     (<["storage_quota" := VNone]> alice)).2 !! "storage_quota"
  = Some VNone.
Proof.
  destruct (explicit_none_bypasses_default UserCreate User
              (Fld "storage_quota" (TOptional TInt) [Default (VInt 5368709120)]))
    as (_ & _ & H & _); [is_listed | is_listed | reflexivity |].
  apply (H wall_clock (<["storage_quota" := VNone]> alice)); reflexivity.
Defined.

(** ** Keys and relationships *)

Ltac some_entity tac :=
  first [ exists User; tac | exists UploadedFile; tac | exists ChatSession; tac
        | exists ChatMessage; tac | exists ChatFileAttachment; tac
        | exists SearchQuery; tac | exists VideoProject; tac
        | exists VideoFile; tac | exists VideoEditTask; tac ].

(** X11.  Every table model has one primary key, the optional integer
    [id] that defaults to [None]; table names and class names are
    pairwise distinct; every foreign key is a required integer that names
    the [id] column of the table of an entity of the file.  The
    non-persistent shapes have no table name, no key and no foreign
    key. *)
Theorem foreign_keys_resolve :
  (forall e, e ∈ entities ->
      table e = true /\ primary_keys e = ["id"] /\ get_field e "id" = Some id_field) /\
  NoDup (map tablename entities) /\
  NoDup (map mname schemas) /\
  (forall e f target,
      e ∈ entities -> f ∈ mfields e -> kw_foreign_key (kwargs f) = Some target ->
      ftyp f = TInt /\ is_required f = true /\
      exists e', e' ∈ entities /\ key_column e' = Some target /\
                 primary_keys e' = ["id"]) /\
  (forall s, s ∈ schemas -> table s = false ->
      tablename s = None /\ primary_keys s = [] /\
      forall f, f ∈ mfields s -> kw_foreign_key (kwargs f) = None).
Proof.
  split; [|split; [|split; [|split]]].
  - intros e He. in_list He; subst e; repeat split; reflexivity.
  - apply (bool_decide_eq_true_1 (NoDup (map tablename entities))). reflexivity.
  - apply (bool_decide_eq_true_1 (NoDup (map mname schemas))). reflexivity.
  - intros e f target He Hf Hk.
    in_list He; subst e; in_list Hf; subst f; simpl in Hk; try discriminate Hk;
      injection Hk as <-;
      (split; [reflexivity|]; split; [reflexivity|]);
      some_entity ltac:(split; [is_listed | split; reflexivity]).
  - intros s Hs Ht.
    in_list Hs; subst s; try discriminate Ht;
      (split; [reflexivity|]; split; [reflexivity|]);
      intros f Hf; in_list Hf; subst f; reflexivity.
Qed.

Lemma foreign_keys_resolve_witness :
  exists e', e' ∈ entities /\ key_column e' = Some "chat_messages.id" /\
             primary_keys e' = ["id"].
Proof.
  destruct foreign_keys_resolve as (_ & _ & _ & H & _).
  destruct (H ChatFileAttachment
              (Fld "message_id" TInt [ForeignKey "chat_messages.id"]) "chat_messages.id")
    as (_ & _ & He'); [is_listed | is_listed | reflexivity |].
  exact He'.
Defined.

(** X12.  Relationships come in pairs: the class a relationship targets
    declares the relationship named by [back_populates], which targets
    the first class and names the first relationship back; one side is a
    list and the other a single object, and the class on the single side
    holds the foreign key to the table of the other.  Conversely every
    foreign key has its to-one relationship. *)
Theorem relationships_are_paired :
  (forall e r,
      e ∈ entities -> r ∈ relationships e ->
      exists t r',
        find_model (target_model r) = Some t /\
        find_relationship t (back_populates r) = Some r' /\
        target_model r' = mname e /\ back_populates r' = rname r /\
        to_many r' = negb (to_many r) /\
        (if to_many r then has_foreign_key_to t e else has_foreign_key_to e t) = true) /\
  (forall e t,
      e ∈ entities -> t ∈ entities -> has_foreign_key_to e t = true ->
      exists r, r ∈ relationships e /\ target_model r = mname t /\ to_many r = false).
Proof.
  split.
  - intros e r He Hr.
    in_list He; subst e; in_list Hr; subst r;
      eexists; eexists; (split; [reflexivity|]); (split; [reflexivity|]);
      repeat split; reflexivity.
  - intros e t He Ht Hfk.
    in_list He; subst e; in_list Ht; subst t; try discriminate Hfk;
      match type of Hfk with
      | has_foreign_key_to ?e ?t = true =>
          let found := eval vm_compute in
            (List.find (fun r => String.eqb (target_model r) (mname t)
                                 && negb (to_many r)) (relationships e)) in
          match found with Some ?r => exists r end
      end;
      (split; [is_listed|]); split; reflexivity.
Qed.

Lemma relationships_are_paired_witness :
  exists r, r ∈ relationships VideoEditTask /\
            target_model r = mname VideoProject /\ to_many r = false.
Proof.
  destruct relationships_are_paired as (_ & H).
  apply (H VideoEditTask VideoProject); [is_listed | is_listed | reflexivity].
Defined.

(** ** What every accepted email looks like *)

Lemma class_count_zero items c l :
  Regex.in_class items c = false ->
  forallb (Regex.in_class items) l = true ->
  count_occ ascii_dec l c = 0%nat.
Proof.
  intros Hc. induction l as [|x l IH]; simpl; [reflexivity|].
  rewrite andb_true_iff. intros [Hx Hl].
  destruct (ascii_dec x c) as [->|_]; [congruence | auto].
Qed.

Lemma pattern_form_count s :
  pattern_form s ->
  count_occ ascii_dec s "@"%char = 1%nat /\ (5 <= length s)%nat.
Proof.
  intros (l & d & r & -> & Hl1 & Hl2 & Hd1 & Hd2 & Hr1 & Hr2). split.
  - rewrite count_occ_app. simpl. rewrite count_occ_app. simpl.
    rewrite (class_count_zero email_local_class "@"%char l eq_refl Hl2).
    rewrite (class_count_zero email_label_class "@"%char d eq_refl Hd2).
    rewrite (class_count_zero email_tail_class "@"%char r eq_refl Hr2).
    reflexivity.
  - rewrite length_app. simpl. rewrite length_app. simpl.
    destruct l; [contradiction|]. destruct d; [contradiction|].
    destruct r; [contradiction|]. simpl. lia.
Qed.

(** X13.  Every string that the pattern declared for [User.email]
    matches, read as Python's [re.match] reads it, contains exactly one
    [@] and has at least 5 characters: the shortest has one character on
    each side of the [@] and of one dot. *)
Theorem email_pattern_has_one_at cs :
  Regex.re_match email_regex cs = true ->
  count_occ ascii_dec cs "@"%char = 1%nat /\ (5 <= length cs)%nat.
Proof.
  intros Hm. apply email_regex_match in Hm.
  destruct Hm as [Hf | (s' & -> & Hf)];
    destruct (pattern_form_count _ Hf) as [Hc Hn].
  - split; assumption.
  - split.
    + rewrite count_occ_app, Hc. reflexivity.
    + rewrite length_app. lia.
Qed.

Lemma email_pattern_has_one_at_witness :
  count_occ ascii_dec (list_ascii_of_string "a@b.c") "@"%char = 1%nat /\
  (5 <= length (list_ascii_of_string "a@b.c"))%nat.
Proof. apply email_pattern_has_one_at. reflexivity. Defined.

(** ** Enumerations *)

Lemma enum_by_value_none e v :
  enum_by_value e v = None <-> v ∉ enum_values e.
Proof.
  unfold enum_by_value, enum_values.
  destruct (List.find _ (members e)) as [[n w]|] eqn:E; simpl.
  - split; [discriminate|]. intros Hout. exfalso. apply Hout.
    apply find_some in E as [Hin Heq]. simpl in Heq.
    apply String.eqb_eq in Heq as <-.
    apply list_elem_of_In in Hin. apply (list_elem_of_fmap_2 snd) in Hin. exact Hin.
  - split; [|reflexivity]. intros _ Hin.
    apply list_elem_of_fmap in Hin as ([n w] & -> & Hin).
    apply list_elem_of_In in Hin.
    pose proof (find_none _ _ E _ Hin) as Hno. simpl in Hno.
    rewrite String.eqb_refl in Hno. discriminate.
Qed.

(** X14.  In each of the five enumerations the member names are pairwise
    distinct and so are the values, so no member is an alias: looking a
    member up by its value gives that member back, and a string that is
    not a value has no member.  Every value of [VideoStatus] is also a
    value of [FileStatus], which adds [uploading]. *)
Theorem enum_values_identify_members :
  (forall e, e ∈ enums ->
      NoDup (map fst (members e)) /\ NoDup (enum_values e) /\
      forall name v, (name, v) ∈ members e ->
                     enum_value e name = Some v /\ enum_by_value e v = Some name) /\
  (forall e v, enum_by_value e v = None <-> v ∉ enum_values e) /\
  (forall v, v ∈ enum_values VideoStatus -> v ∈ enum_values FileStatus) /\
  (forall v, v ∈ enum_values FileStatus ->
             v = "uploading" \/ v ∈ enum_values VideoStatus).
Proof.
  split; [|split; [|split]].
  - intros e He. in_list He; subst e.
    all: split; [apply (bool_decide_eq_true_1 (NoDup _)); reflexivity|].
    all: split; [apply (bool_decide_eq_true_1 (NoDup _)); reflexivity|].
    all: intros name v Hin; in_list Hin; injection Hin as <- <-; split; reflexivity.
  - exact enum_by_value_none.
  - intros v Hv. in_list Hv; subst v; is_listed.
  - intros v Hv. in_list Hv; subst v; first [left; reflexivity | right; is_listed].
Qed.

Lemma enum_values_identify_members_witness :
  enum_by_value SearchStatus "in_progress" = Some "IN_PROGRESS" /\
  "uploaded" ∈ enum_values FileStatus.
Proof.
  destruct enum_values_identify_members as (H & _ & Hsub & _).
  split.
  - destruct (H SearchStatus) as (_ & _ & Hm); [is_listed|].
    apply (Hm "IN_PROGRESS" "in_progress"). is_listed.
  - apply Hsub. is_listed.
Defined.

(** ** Nullable attributes *)

Lemma check_none f : check_value f VNone = None <-> is_optional (ftyp f) = true.
Proof.
  unfold check_value, check_ge, check_max_length, check_regex.
  destruct (ftyp f); simpl; try (split; discriminate).
  destruct (kw_ge (kwargs f)), (kw_max_length (kwargs f)), (kw_regex (kwargs f));
    split; reflexivity.
Qed.

(** X15.  An attribute accepts [None] exactly when its annotation is
    [Optional]; in the entities and in the Update shapes every optional
    attribute defaults to [None].  Apart from [id], the nullable
    attributes of the entities are the token counts, the completion
    times, the error messages, the output path and the four technical
    attributes of a video file. *)
Theorem nullable_attributes :
  (forall f, check_value f VNone = None <-> is_optional (ftyp f) = true) /\
  (forall m f,
      m ∈ entities ++ map fst update_shapes -> f ∈ mfields m ->
      is_optional (ftyp f) = true -> field_default f = DefaultValue VNone) /\
  flat_map (fun m => map (fun f => (mname m, fname f))
                       (List.filter (fun f => is_optional (ftyp f) && negb (is_primary_key f))
                          (mfields m))) entities
  = [("ChatMessage", "input_tokens"); ("ChatMessage", "output_tokens");
     ("SearchQuery", "completed_at"); ("SearchQuery", "error_message");
     ("VideoFile", "duration"); ("VideoFile", "resolution"); ("VideoFile", "fps");
     ("VideoFile", "codec"); ("VideoEditTask", "completed_at");
     ("VideoEditTask", "output_file_path"); ("VideoEditTask", "error_message")].
Proof.
  split; [exact check_none|]. split; [|reflexivity].
  intros m f Hm Hf Hopt.
  in_list Hm; subst m; in_list Hf; subst f; try discriminate Hopt; reflexivity.
Qed.

Lemma nullable_attributes_witness :
  field_default (Fld "fps" (TOptional TDecimal) [Default VNone]) = DefaultValue VNone.
Proof.
  destruct nullable_attributes as (_ & H & _).
  apply (H VideoFile); [is_listed | is_listed | reflexivity].
Defined.
